(** * celery-batches: the buffering / flush scheduler of [celery_batches/__init__.py]

    A shallow embedding of [consume_queue], [SimpleRequest] and the [Batches]
    task class, followed by the properties of the flush protocol.

    Conventions of the embedding:
    - Python objects that the code only passes around are values of [pyval];
    - an attribute that may be absent from a duck-typed object is an [option]
      ([None] = the attribute does not exist, reading it raises AttributeError);
    - methods of [Batches] are computations of the monad [M]: they thread the
      instance state and the state of the external collaborators (timer, pool)
      and either return a value or raise a Python exception;
    - calls to the external collaborators and to the logger are recorded, in
      program order, in the [trace] of the world. *)

From Stdlib Require Import List ZArith QArith Bool String Ascii Lia Permutation.
From Equations Require Import Equations.
Import ListNotations.
Open Scope string_scope.
Open Scope Z_scope.
Open Scope list_scope.

Set Warnings "-register-all".

(* ===================================================================== *)
(** ** Python values *)

Inductive pyval : Type :=
| PyNone
| PyBool (b : bool)
| PyInt (z : Z)
| PyStr (s : string)
| PyTuple (items : list pyval)
| PyList (items : list pyval)
| PyDict (items : list (pyval * pyval)).

(** Python truthiness ([bool(v)]). *)
Definition truthy (v : pyval) : bool :=
  match v with
  | PyNone => false
  | PyBool b => b
  | PyInt z => negb (z =? 0)
  | PyStr s => negb (String.length s =? 0)%nat
  | PyTuple l | PyList l => negb (List.length l =? 0)%nat
  | PyDict l => negb (List.length l =? 0)%nat
  end.

(** [a or b] on values. *)
Definition py_or (a b : pyval) : pyval := if truthy a then a else b.

(** Keyword dictionaries ([**options]) keep their string keys. *)
Definition kwdict := list (string * pyval).

Fixpoint kw_lookup (d : kwdict) (key : string) : option pyval :=
  match d with
  | [] => None
  | (k, v) :: d' => if String.eqb k key then Some v else kw_lookup d' key
  end.

(** [d.get(key, default)] *)
Definition dict_get (d : kwdict) (key : string) (default : pyval) : pyval :=
  match kw_lookup d key with
  | Some v => v
  | None => default
  end.

Definition kwdict_val (d : kwdict) : pyval :=
  PyDict (map (fun kv => (PyStr (fst kv), snd kv)) d).

(* ===================================================================== *)
(** ** Exceptions and fallible results *)

Inductive exn : Type :=
| AssertionError
| AttributeError (attr : string)
| TypeError
| ValueError
| ZeroDivisionError
| PoolError.

Inductive result (A : Type) : Type :=
| Ok (a : A)
| Raise (e : exn).
Arguments Ok {A} a.
Arguments Raise {A} e.

Definition rbind {A B} (r : result A) (k : A -> result B) : result B :=
  match r with
  | Ok a => k a
  | Raise e => Raise e
  end.

Declare Scope result_scope.
Delimit Scope result_scope with res.
Bind Scope result_scope with result.
Notation "x <- c ;; k" := (rbind c (fun x => k))
  (at level 61, c at next level, right associativity) : result_scope.
Notation "' p <- c ;; k" := (rbind c (fun x => let 'p := x in k))
  (at level 61, p pattern, c at next level, right associativity) : result_scope.

(** [obj.attr] on an attribute that may be missing. *)
Definition getattr {A} (attr : string) (slot : option A) : result A :=
  match slot with
  | Some v => Ok v
  | None => Raise (AttributeError attr)
  end.

(** [getattr(obj, attr, default)] *)
Definition getattr_default {A} (slot : option A) (default : A) : A :=
  match slot with
  | Some v => v
  | None => default
  end.

(** The items that iterating over a value yields; [None] when the value is
    not iterable. *)
Definition py_iter (v : pyval) : option (list pyval) :=
  match v with
  | PyTuple l | PyList l => Some l
  | PyStr s => Some (map (fun c => PyStr (String c EmptyString)) (list_ascii_of_string s))
  | PyDict l => Some (map fst l)
  | PyNone | PyBool _ | PyInt _ => None
  end.

(** [a, b, c = v] *)
Definition unpack3 (v : pyval) : result (pyval * pyval * pyval) :=
  match py_iter v with
  | None => Raise TypeError
  | Some [a; b; c] => Ok (a, b, c)
  | Some _ => Raise ValueError
  end.

(* ===================================================================== *)
(** ** Requests *)

(** The part of a Celery task object that the scheduler reads. *)
Record Task : Type := {
  task_name : string;
  acks_late : bool
}.

(** A live worker request ([celery.worker.request.Request], or any object
    handed to [flush] in its place).  [oid] is the identity of the Python
    object: two requests are the same object iff their [oid]s agree. *)
Module Request.
Record t : Type := mk {
    oid : nat;
    task : Task;
    _payload : option pyval;
    id : option pyval;
    name : option pyval;
    delivery_info : option pyval;
    hostname : option pyval;
    ignore_result : option pyval;
    reply_to : option pyval;
    correlation_id : option pyval
  }.
End Request.

Module SimpleRequest.
Record t : Type := __init__ {
    id : pyval;
    name : pyval;
    args : pyval;
    kwargs : pyval;
    delivery_info : pyval;
    hostname : pyval;
    ignore_result : pyval;
    reply_to : pyval;
    correlation_id : pyval
  }.

Definition from_request (request : Request.t) : result t :=
    (payload <- getattr "_payload" (Request._payload request) ;;
     '(args, kwargs, embed) <- unpack3 payload ;;
     let ignore_result :=
       getattr_default (Request.ignore_result request) (PyBool false) in
     id <- getattr "id" (Request.id request) ;;
     name <- getattr "name" (Request.name request) ;;
     delivery_info <- getattr "delivery_info" (Request.delivery_info request) ;;
     hostname <- getattr "hostname" (Request.hostname request) ;;
     reply_to <- getattr "reply_to" (Request.reply_to request) ;;
     correlation_id <- getattr "correlation_id" (Request.correlation_id request) ;;
     Ok (__init__ id name args kwargs delivery_info hostname ignore_result
                  reply_to correlation_id))%res.
End SimpleRequest.

(** [[f(x) for x in xs]] for a fallible [f]: the first exception aborts the
    comprehension. *)
Fixpoint list_comp {A B} (f : A -> result B) (xs : list A) : result (list B) :=
  match xs with
  | [] => Ok []
  | x :: xs' => (y <- f x ;; ys <- list_comp f xs' ;; Ok (y :: ys))%res
  end.

(* ===================================================================== *)
(** ** The pending buffer: [queue.Queue] and [consume_queue] *)

Module Queue.
Definition t (A : Type) : Type := list A.

Definition empty {A} : t A := [].

  (** [put] appends at the tail. *)
Definition put {A} (q : t A) (item : A) : t A := q ++ [item].

  (** [get_nowait] pops the head; [None] stands for [raise Empty]. *)
Definition get_nowait {A} (q : t A) : option (A * t A) :=
    match q with
    | [] => None
    | item :: rest => Some (item, rest)
    end.

Definition qsize {A} (q : t A) : nat := List.length q.
End Queue.

Definition inspect {A} (a : A) : {b : A | a = b} := exist _ a eq_refl.

(** [list(consume_queue(queue))]: the loop calls [get_nowait] until it raises
    [Empty]; the result is the list of yielded items together with the queue
    as the loop leaves it. *)
Equations consume_queue {A} (queue : Queue.t A) : list A * Queue.t A
  by wf (List.length queue) lt :=
  consume_queue queue with inspect (Queue.get_nowait queue) := {
    | exist _ (Some (item, rest)) Hget =>
        let more := consume_queue rest in (item :: fst more, snd more)
    | exist _ None _ => ([], queue) }.
Next Obligation.
  destruct queue as [|y q']; simpl in Hget; [discriminate|].
  injection Hget as _ <-. simpl. lia.
Qed.

(* ===================================================================== *)
(** ** External collaborators and the world *)

(** The two closures that [flush] hands to the pool, represented by the list
    they captured, and Celery's [noop]. *)
Inductive Callback : Type :=
| on_accepted (acks_late_False : list Request.t)
| on_return (acks_late_True : list Request.t)
| noop.

(** The requests on which a callback calls [acknowledge()] when it fires, in
    call order. *)
Definition fire (cb : Callback) : list Request.t :=
  match cb with
  | on_accepted l => l
  | on_return l => l
  | noop => []
  end.

(** One call [pool.apply_async(apply_batches_task,
    (self, serializable_requests, 0, None), accept_callback=.., callback=..)]. *)
Record Submission : Type := {
  serializable_requests : list SimpleRequest.t;
  accept_callback : Callback;
  callback : Callback
}.

(** The executor pool: it either accepts a submission or raises. *)
Record Pool : Type := {
  accepts : Submission -> bool
}.

(** The handle [apply_async] returns for an accepted submission. *)
Record AsyncResult : Type := {
  submitted : Submission
}.

(** A timer entry, as returned by [timer.call_repeatedly]. *)
Definition Tref := nat.

Inductive LogMsg : Type :=
| WakeUp                       (* "Batches: Wake-up to flush buffer..." *)
| BufferComplete (n : nat)     (* "Batches: Buffer complete: %s" *)
| CancelingTimer.              (* "Batches: Canceling timer: Nothing in buffer." *)

(** The call [super().apply(([request],), {}, *_args, **options)]. *)
Record EagerCall : Type := {
  eager_args : list (list SimpleRequest.t);
  eager_kwargs : kwdict;
  eager_rest : list pyval;
  eager_options : kwdict
}.

Inductive Event : Type :=
| Log (m : LogMsg)
| CallRepeatedly (secs : Q) (tref : Tref)
| Cancel (tref : Tref)
| CallFlush (requests : list Request.t)
| ApplyAsync (s : Submission)
| SuperApply (c : EagerCall).

(** The instance attributes of a [Batches] task. *)
Record Batches : Type := {
  _buffer : Queue.t Request.t;
  _count : Z;                  (* the value the next [next(self._count)] returns *)
  _tref : option Tref;
  _pool : option Pool;
  flush_every : Z;
  flush_interval : Q
}.

Record World : Type := {
  self : Batches;
  timer_entries : list Tref;   (* entries the timer service will still fire *)
  timer_fresh : Tref;
  heap_fresh : nat;            (* identity of the next allocated request *)
  uuid_source : nat -> string; (* the strings [uuid()] produces, in order *)
  uuid_used : nat;
  node_name : string;          (* what [gethostname()] returns *)
  trace : list Event
}.

Definition with_self (w : World) (b : Batches) : World :=
  {| self := b; timer_entries := timer_entries w; timer_fresh := timer_fresh w;
     heap_fresh := heap_fresh w; uuid_source := uuid_source w;
     uuid_used := uuid_used w; node_name := node_name w; trace := trace w |}.

Definition with_timer (w : World) (entries : list Tref) (fresh : Tref) : World :=
  {| self := self w; timer_entries := entries; timer_fresh := fresh;
     heap_fresh := heap_fresh w; uuid_source := uuid_source w;
     uuid_used := uuid_used w; node_name := node_name w; trace := trace w |}.

Definition with_heap_fresh (w : World) (n : nat) : World :=
  {| self := self w; timer_entries := timer_entries w; timer_fresh := timer_fresh w;
     heap_fresh := n; uuid_source := uuid_source w;
     uuid_used := uuid_used w; node_name := node_name w; trace := trace w |}.

Definition with_uuid_used (w : World) (n : nat) : World :=
  {| self := self w; timer_entries := timer_entries w; timer_fresh := timer_fresh w;
     heap_fresh := heap_fresh w; uuid_source := uuid_source w;
     uuid_used := n; node_name := node_name w; trace := trace w |}.

Definition with_trace (w : World) (t : list Event) : World :=
  {| self := self w; timer_entries := timer_entries w; timer_fresh := timer_fresh w;
     heap_fresh := heap_fresh w; uuid_source := uuid_source w;
     uuid_used := uuid_used w; node_name := node_name w; trace := t |}.

Definition set_buffer (b : Batches) (q : Queue.t Request.t) : Batches :=
  {| _buffer := q; _count := _count b; _tref := _tref b; _pool := _pool b;
     flush_every := flush_every b; flush_interval := flush_interval b |}.

Definition set_count (b : Batches) (n : Z) : Batches :=
  {| _buffer := _buffer b; _count := n; _tref := _tref b; _pool := _pool b;
     flush_every := flush_every b; flush_interval := flush_interval b |}.

Definition set_tref (b : Batches) (t : option Tref) : Batches :=
  {| _buffer := _buffer b; _count := _count b; _tref := t; _pool := _pool b;
     flush_every := flush_every b; flush_interval := flush_interval b |}.

Definition set_pool (b : Batches) (p : option Pool) : Batches :=
  {| _buffer := _buffer b; _count := _count b; _tref := _tref b; _pool := p;
     flush_every := flush_every b; flush_interval := flush_interval b |}.

(* ===================================================================== *)
(** ** The monad of methods *)

Definition M (A : Type) : Type := World -> result A * World.

Definition ret {A} (a : A) : M A := fun w => (Ok a, w).

Definition raise {A} (e : exn) : M A := fun w => (Raise e, w).

Definition bind {A B} (c : M A) (k : A -> M B) : M B :=
  fun w =>
    match c w with
    | (Ok a, w') => k a w'
    | (Raise e, w') => (Raise e, w')
    end.

Definition lift {A} (r : result A) : M A := fun w => (r, w).

Declare Scope M_scope.
Delimit Scope M_scope with M.
Bind Scope M_scope with M.
Notation "x <- c ;; k" := (bind c (fun x => k))
  (at level 61, c at next level, right associativity) : M_scope.
Notation "c ;; k" := (bind c (fun _ => k))
  (at level 61, right associativity) : M_scope.

Definition read {A} (f : Batches -> A) : M A := fun w => (Ok (f (self w)), w).

Definition update (f : Batches -> Batches) : M unit :=
  fun w => (Ok tt, with_self w (f (self w))).

Definition emit (e : Event) : M unit :=
  fun w => (Ok tt, with_trace w (trace w ++ [e])).

(** The events a computation adds to the trace when run in [w]. *)
Definition emitted {A} (c : M A) (w : World) : list Event :=
  skipn (List.length (trace w)) (trace (snd (c w))).

Definition logger_debug (m : LogMsg) : M unit := emit (Log m).

(** [timer.call_repeatedly(secs, self._do_flush)] *)
Definition call_repeatedly (secs : Q) : M Tref :=
  fun w =>
    let tref := timer_fresh w in
    (Ok tref,
     with_trace (with_timer w (timer_entries w ++ [tref]) (S tref))
                (trace w ++ [CallRepeatedly secs tref])).

(** [tref.cancel()] *)
Definition cancel (tref : Tref) : M unit :=
  fun w =>
    (Ok tt,
     with_trace (with_timer w (List.remove Nat.eq_dec tref (timer_entries w))
                            (timer_fresh w))
                (trace w ++ [Cancel tref])).

(** [pool.apply_async(...)] *)
Definition apply_async (pool : Pool) (s : Submission) : M AsyncResult :=
  (emit (ApplyAsync s) ;;
   if accepts pool s then ret {| submitted := s |} else raise PoolError)%M.

(** [uuid()] *)
Definition uuid : M pyval :=
  fun w => (Ok (PyStr (uuid_source w (uuid_used w))),
            with_uuid_used w (S (uuid_used w))).

(** [gethostname()] *)
Definition gethostname : M pyval :=
  fun w => (Ok (PyStr (node_name w)), w).

(* ===================================================================== *)
(** ** class Batches *)

Definition nonempty {A} (l : list A) : bool :=
  match l with [] => false | _ :: _ => true end.

(** [Batches.__init__]; the class attributes [flush_every] and
    [flush_interval] (defaults 10 and 30) are fixed when the task is declared. *)
Definition __init__ (flush_every : Z) (flush_interval : Q) : Batches :=
  {| _buffer := Queue.empty; _count := 1; _tref := None; _pool := None;
     flush_every := flush_every; flush_interval := flush_interval |}.

(** [acks_late[r.task.acks_late].append(r)] on the pair [acks_late = [], []];
    index [False] is the first component and index [True] the second. *)
Definition acks_late_append (parts : list Request.t * list Request.t)
    (r : Request.t) : list Request.t * list Request.t :=
  if acks_late (Request.task r)
  then (fst parts, snd parts ++ [r])
  else (fst parts ++ [r], snd parts).

(** [Batches.flush].  Entering the method is recorded as [CallFlush]. *)
Definition flush (requests : list Request.t) : M AsyncResult :=
  (emit (CallFlush requests) ;;
   let parts := fold_left acks_late_append requests ([], []) in
   let acks_late_False := fst parts in
   let acks_late_True := snd parts in
   if negb (nonempty requests &&
            (nonempty acks_late_True || nonempty acks_late_False))
   then raise AssertionError
   else
     serializable_requests <-
       lift (list_comp SimpleRequest.from_request requests) ;;
     pool <- read _pool ;;
     match pool with
     | None => raise (AttributeError "apply_async")
     | Some pool =>
         apply_async pool
           {| serializable_requests := serializable_requests;
              accept_callback := on_accepted acks_late_False;
              callback := if nonempty acks_late_True
                          then on_return acks_late_True
                          else noop |}
     end)%M.

(** [requests = list(consume_queue(self._buffer))] *)
Definition drain_buffer : M (list Request.t) :=
  fun w =>
    let drained := consume_queue (_buffer (self w)) in
    (Ok (fst drained), with_self w (set_buffer (self w) (snd drained))).

(** [Batches._do_flush].  The local [requests] is [None] or a list. *)
Definition _do_flush : M unit :=
  (logger_debug WakeUp ;;
   size <- read (fun b => Queue.qsize (_buffer b)) ;;
   requests <-
     (if (size =? 0)%nat then ret None
      else
        requests <- drain_buffer ;;
        (if nonempty requests
         then logger_debug (BufferComplete (List.length requests)) ;;
              flush requests ;; ret tt
         else ret tt) ;;
        ret (Some requests)) ;;
   if match requests with None => true | Some l => negb (nonempty l) end
   then
     logger_debug CancelingTimer ;;
     tref <- read _tref ;;
     match tref with
     | Some t => cancel t
     | None => ret tt
     end ;;
     update (fun b => set_tref b None)
   else ret tt)%M.

(** What the consumption layer delivers: the decoded content of one message.
    Decoding ([proto1_to_proto2]) belongs to Celery and is taken as done. *)
Record Message : Type := {
  msg_payload : pyval;
  msg_id : pyval;
  msg_name : pyval;
  msg_delivery_info : pyval;
  msg_ignore_result : option pyval;   (* absent before Celery 5.1 *)
  msg_reply_to : pyval;
  msg_correlation_id : pyval
}.

(** [Req(message, ..., hostname=hostname, task=task, ...)]: Celery's request
    class builds a fresh object bound to [task]. *)
Definition Req (message : Message) (hostname : pyval) (task : Task)
    : M Request.t :=
  fun w =>
    (Ok {| Request.oid := heap_fresh w;
           Request.task := task;
           Request._payload := Some (msg_payload message);
           Request.id := Some (msg_id message);
           Request.name := Some (msg_name message);
           Request.delivery_info := Some (msg_delivery_info message);
           Request.hostname := Some hostname;
           Request.ignore_result := msg_ignore_result message;
           Request.reply_to := Some (msg_reply_to message);
           Request.correlation_id := Some (msg_correlation_id message) |},
     with_heap_fresh w (S (heap_fresh w))).

(** [next(self._count)] *)
Definition next_count : M Z :=
  fun w => (Ok (_count (self w)),
            with_self w (set_count (self w) (_count (self w) + 1))).

(** [a % b] on Python integers. *)
Definition py_mod (a b : Z) : M Z :=
  if b =? 0 then raise ZeroDivisionError else ret (a mod b).

Record Consumer : Type := {
  pool : Pool;
  hostname : pyval
}.

(** The closure [task_message_handler] that [Strategy] returns. *)
Definition task_message_handler (task : Task) (hostname : pyval)
    (message : Message) : M unit :=
  (request <- Req message hostname task ;;
   update (fun b => set_buffer b (Queue.put (_buffer b) request)) ;;
   tref <- read _tref ;;
   match tref with
   | None =>
       secs <- read flush_interval ;;
       t <- call_repeatedly secs ;;
       update (fun b => set_tref b (Some t))
   | Some _ => ret tt
   end ;;
   n <- next_count ;;
   every <- read flush_every ;;
   r <- py_mod n every ;;
   if r =? 0 then _do_flush else ret tt)%M.

(** [Batches.Strategy] *)
Definition Strategy (task : Task) (consumer : Consumer)
    : M (Message -> M unit) :=
  (update (fun b => set_pool b (Some (pool consumer))) ;;
   ret (task_message_handler task (hostname consumer)))%M.

(** [None] or a tuple, as a value. *)
Definition tuple_arg (args : option (list pyval)) : pyval :=
  match args with
  | None => PyNone
  | Some l => PyTuple l
  end.

(** [None] or a dict, as a value. *)
Definition dict_arg (kwargs : option kwdict) : pyval :=
  match kwargs with
  | None => PyNone
  | Some d => kwdict_val d
  end.

(** [super().apply(args, kwargs, *_args, **options)]: Celery's eager
    execution, recorded as [SuperApply]. *)
Definition super_apply (c : EagerCall) : M EagerCall :=
  (emit (SuperApply c) ;; ret c)%M.

(** [Batches.apply].  [args] is a tuple or [None] (docstring), [kwargs] a
    dict or [None]. *)
Definition apply (args : option (list pyval)) (kwargs : option kwdict)
    (_args : list pyval) (options : kwdict) : M EagerCall :=
  (fresh <- uuid ;;
   host <- gethostname ;;
   let request :=
     SimpleRequest.__init__
       (dict_get options "task_id" fresh)
       (PyStr "batch request")
       (py_or (tuple_arg args) (PyTuple []))
       (py_or (dict_arg kwargs) (PyDict []))
       (PyDict [(PyStr "is_eager", PyBool true);
                (PyStr "exchange", dict_get options "exchange" PyNone);
                (PyStr "routing_key", dict_get options "routing_key" PyNone);
                (PyStr "priority", dict_get options "priority" PyNone)])
       host
       (dict_get options "ignore_result" (PyBool false))
       PyNone
       PyNone in
   super_apply {| eager_args := [[request]]; eager_kwargs := [];
                  eager_rest := _args; eager_options := options |})%M.

(* ===================================================================== *)
(** ** Runs of the scheduler *)

(** What can happen to a started scheduler: the consumption layer delivers a
    message, or a flush attempt runs (a timer firing). *)
Inductive Action : Type :=
| Ingress (message : Message)
| FlushAttempt.

Definition perform (task : Task) (hostname : pyval) (a : Action) : M unit :=
  match a with
  | Ingress message => task_message_handler task hostname message
  | FlushAttempt => _do_flush
  end.

(** Exceptions reach the caller; the instance keeps the state it had when the
    exception was raised. *)
Definition run (task : Task) (hostname : pyval) (acts : list Action)
    (w : World) : World :=
  fold_left (fun w a => snd (perform task hostname a w)) acts w.

Fixpoint ingress_calls (acts : list Action) : nat :=
  match acts with
  | [] => O
  | Ingress _ :: acts' => S (ingress_calls acts')
  | FlushAttempt :: acts' => ingress_calls acts'
  end.

(** A world in which nothing has happened yet. *)
Definition fresh_world (b : Batches) (uuids : nat -> string) (node : string)
    : World :=
  {| self := b; timer_entries := []; timer_fresh := O; heap_fresh := O;
     uuid_source := uuids; uuid_used := O; node_name := node; trace := [] |}.

(** The worker has created the task and called [Strategy]. *)
Definition started (task : Task) (consumer : Consumer) (every : Z) (secs : Q)
    (uuids : nat -> string) (node : string) : World :=
  snd (Strategy task consumer (fresh_world (__init__ every secs) uuids node)).

Definition reachable (task : Task) (consumer : Consumer) (every : Z) (secs : Q)
    (uuids : nat -> string) (node : string) (w : World) : Prop :=
  exists acts,
    w = run task (hostname consumer) acts
            (started task consumer every secs uuids node).

(** The timer handle is armed. *)
Definition armed (w : World) : Prop := _tref (self w) <> None.

(* ===================================================================== *)
(** ** Vocabulary of the properties *)

(** The acknowledgment policy [flush] looks at: [r.task.acks_late]. *)
Definition late (r : Request.t) : bool := acks_late (Request.task r).

Definition immediate (requests : list Request.t) : list Request.t :=
  filter (fun r => negb (late r)) requests.

Definition deferred (requests : list Request.t) : list Request.t :=
  filter late requests.

(** The submissions handed to the pool in a stretch of the trace. *)
Definition registered (evs : list Event) : list Submission :=
  flat_map (fun e => match e with ApplyAsync s => [s] | _ => [] end) evs.

(** The batches [flush] was entered with in a stretch of the trace. *)
Definition flushed (evs : list Event) : list (list Request.t) :=
  flat_map (fun e => match e with CallFlush l => [l] | _ => [] end) evs.

(** The [acknowledge()] calls of a normal execution: the acceptance callback
    fires once, then the completion callback fires once. *)
Definition acknowledgments (s : Submission) : list Request.t :=
  fire (accept_callback s) ++ fire (callback s).

(** How often the object [r] is acknowledged in such an execution. *)
Definition times_acknowledged (s : Submission) (r : Request.t) : nat :=
  count_occ Nat.eq_dec (map Request.oid (acknowledgments s)) (Request.oid r).

Definition absent {A} (slot : option A) : bool :=
  match slot with Some _ => false | None => true end.

(** A field that [from_request] reads without a default is missing. *)
Definition missing_required (r : Request.t) : bool :=
  absent (Request._payload r) || absent (Request.id r) ||
  absent (Request.name r) || absent (Request.delivery_info r) ||
  absent (Request.hostname r) || absent (Request.reply_to r) ||
  absent (Request.correlation_id r).

(** The snapshot of the request can be taken. *)
Definition snapshotable (r : Request.t) : Prop :=
  exists s, SimpleRequest.from_request r = Ok s.

(** The timer entries that belong to a handle. *)
Definition entries_of (tref : option Tref) : list Tref :=
  match tref with
  | Some t => [t]
  | None => []
  end.

(** What [flush] hands to the pool once the snapshots [snaps] are taken. *)
Definition submission_of (requests : list Request.t)
    (snaps : list SimpleRequest.t) : Submission :=
  {| serializable_requests := snaps;
     accept_callback := on_accepted (immediate requests);
     callback := if nonempty (deferred requests)
                 then on_return (deferred requests) else noop |}.

(** The result of [flush] and the events it adds after [CallFlush]. *)
Definition flush_outcome (requests : list Request.t) (w : World)
    : result AsyncResult * list Event :=
  match requests with
  | [] => (Raise AssertionError, [])
  | _ :: _ =>
      match list_comp SimpleRequest.from_request requests with
      | Raise e => (Raise e, [])
      | Ok snaps =>
          match _pool (self w) with
          | None => (Raise (AttributeError "apply_async"), [])
          | Some p =>
              let s := submission_of requests snaps in
              (if accepts p s then Ok {| submitted := s |} else Raise PoolError,
               [ApplyAsync s])
          end
      end
  end.

(** The first half of [task_message_handler]: build the request, put it in
    the buffer, arm the timer if needed, draw the next count. *)
Definition arrival (task : Task) (hostname : pyval) (message : Message)
    : M Z :=
  (request <- Req message hostname task ;;
   update (fun b => set_buffer b (Queue.put (_buffer b) request)) ;;
   tref <- read _tref ;;
   match tref with
   | None =>
       secs <- read flush_interval ;;
       t <- call_repeatedly secs ;;
       update (fun b => set_tref b (Some t))
   | Some _ => ret tt
   end ;;
   next_count)%M.

(** The world in which the count trigger is evaluated. *)
Definition arrived (task : Task) (hostname : pyval) (message : Message)
    (w : World) : World :=
  snd (arrival task hostname message w).

(** The request object the handler creates in [w]. *)
Definition new_request (task : Task) (hostname : pyval) (message : Message)
    (w : World) : Request.t :=
  match fst (Req message hostname task w) with
  | Ok request => request
  | Raise _ =>
      Request.mk O task None None None None None None None None
  end.

(** The events of arming the timer on an arrival in [w]. *)
Definition arm_events (w : World) : list Event :=
  match _tref (self w) with
  | Some _ => []
  | None => [CallRepeatedly (flush_interval (self w)) (timer_fresh w)]
  end.

(** The events one call of [_do_flush] adds to the trace. *)
Definition do_flush_events (w : World) : list Event :=
  match _buffer (self w) with
  | [] =>
      Log WakeUp :: Log CancelingTimer ::
      map Cancel (entries_of (_tref (self w)))
  | _ :: _ =>
      Log WakeUp :: Log (BufferComplete (List.length (_buffer (self w)))) ::
      CallFlush (_buffer (self w)) :: snd (flush_outcome (_buffer (self w)) w)
  end.

(** Invariant of a started scheduler bound to [task]. *)
Definition scheduler_inv (task : Task) (every : Z) (w : World) : Prop :=
  timer_entries w = entries_of (_tref (self w)) /\
  (_buffer (self w) <> [] -> _tref (self w) <> None) /\
  Forall (fun r => Request.task r = task) (_buffer (self w)) /\
  flush_every (self w) = every.

(* ===================================================================== *)
(** ** A concrete worker

    The task of [t/integration/tasks.py] ([flush_every=2]) and requests as a
    worker would hold them, used to run the methods on explicit inputs. *)

Definition add_task : Task :=
  {| task_name := "t.integration.tasks.add"; acks_late := false |}.

Definition late_task : Task :=
  {| task_name := "t.integration.tasks.add"; acks_late := true |}.

Definition open_pool : Pool := {| accepts := fun _ => true |}.

Definition worker : Consumer :=
  {| pool := open_pool; hostname := PyStr "celery@worker" |}.

(** The message of [add.delay(n)]. *)
Definition delay (n : Z) : Message :=
  {| msg_payload := PyTuple [PyTuple [PyInt n]; PyDict []; PyDict []];
     msg_id := PyInt n;
     msg_name := PyStr "t.integration.tasks.add";
     msg_delivery_info := PyDict [];
     msg_ignore_result := Some (PyBool false);
     msg_reply_to := PyNone;
     msg_correlation_id := PyNone |}.

Definition worker_start : World :=
  started add_task worker 2 1 (fun _ => "00000000") "localhost".

(** A complete request with identity [oid] bound to [task]. *)
Definition request_of (oid : nat) (task : Task) (n : Z) : Request.t :=
  Request.mk oid task
    (Some (PyTuple [PyTuple [PyInt n]; PyDict []; PyDict []]))
    (Some (PyInt n)) (Some (PyStr "t.integration.tasks.add"))
    (Some (PyDict [])) (Some (PyStr "celery@worker")) (Some (PyBool true))
    (Some PyNone) (Some PyNone).

(** The same request without its [id] attribute. *)
Definition request_without_id (oid : nat) (task : Task) (n : Z) : Request.t :=
  Request.mk oid task
    (Some (PyTuple [PyTuple [PyInt n]; PyDict []; PyDict []]))
    None (Some (PyStr "t.integration.tasks.add"))
    (Some (PyDict [])) (Some (PyStr "celery@worker")) (Some (PyBool true))
    (Some PyNone) (Some PyNone).

(** Scenario 3 of the specification: two immediate items, one deferred. *)
Definition mixed_batch : list Request.t :=
  [request_of 0 add_task 1; request_of 1 add_task 2; request_of 2 late_task 3].

(* ===================================================================== *)
(** ** Vocabulary of runs *)

(** The requests handed to [flush] so far, batch after batch. *)
Definition dispatched (w : World) : list Request.t :=
  List.concat (flushed (trace w)).

(** The request an action brings into the scheduler, if any. *)
Definition arrivals (task : Task) (hostname : pyval) (a : Action) (w : World)
    : list Request.t :=
  match a with
  | Ingress message => [new_request task hostname message w]
  | FlushAttempt => []
  end.

(** The requests that the ingress calls of a run create, in arrival order. *)
Fixpoint created (task : Task) (hostname : pyval) (acts : list Action)
    (w : World) : list Request.t :=
  match acts with
  | [] => []
  | a :: acts' =>
      arrivals task hostname a w ++
      created task hostname acts' (snd (perform task hostname a w))
  end.

(** With a positive [flush_every], the buffer never holds more requests than
    ingress calls were made since the last multiple of [flush_every], and no
    batch handed to [flush] is longer than [flush_every]. *)
Definition bounded (every : Z) (w : World) : Prop :=
  flush_every (self w) = every /\
  Z.of_nat (List.length (_buffer (self w))) <= (_count (self w) - 1) mod every /\
  Forall (fun batch => (1 <= List.length batch)%nat /\
                       Z.of_nat (List.length batch) <= every)
         (flushed (trace w)).

(** Every submission in the trace goes back to a batch in the trace. *)
Definition accounted (w : World) : Prop :=
  forall s, In s (registered (trace w)) ->
    exists batch snaps,
      In batch (flushed (trace w)) /\
      list_comp SimpleRequest.from_request batch = Ok snaps /\
      s = submission_of batch snaps.

(* ===================================================================== *)
(** ** Helpers of the integration tests

    [t/integration/tasks.py] keeps the results of the batch task in the
    class-level list [Results._results], which every instance shares;
    [t/integration/test_batches.py] counts signal deliveries. *)

Module Results.
(** The shared list [_results]. *)
Definition t : Type := list pyval.

(** [set(res)]: [self._results.append(res)] *)
Definition set (_results : t) (res : pyval) : t := _results ++ [res].

(** [get()]: [self._results.pop()]; [None] stands for the IndexError of
    popping an empty list. *)
Definition get (_results : t) : option (pyval * t) :=
  match rev _results with
  | [] => None
  | res :: front => Some (res, rev front)
  end.
End Results.

Module SignalCounter.
(** A signal sender: a task instance or a task name. *)
Inductive sender : Type :=
| SenderTask (task : Task)
| SenderName (name : string).

(** The counter; [forwarded] lists the senders its callback was called with,
    and [has_callback] tells whether a callback was given. *)
Record t : Type := __init__ {
  calls : nat;
  expected_calls : nat;
  has_callback : bool;
  forwarded : list sender
}.

Definition sender_name (s : sender) : string :=
  match s with
  | SenderTask task => task_name task
  | SenderName name => name
  end.

(** [__call__(sender, **kwargs)] *)
Definition __call__ (self : t) (s : sender) : t :=
  if String.eqb (sender_name s) "celery.ping" then self
  else
    {| calls := S (calls self);
       expected_calls := expected_calls self;
       has_callback := has_callback self;
       forwarded := if has_callback self then forwarded self ++ [s]
                    else forwarded self |}.

(** [assert_calls()]: [true] when the assertion holds. *)
Definition assert_calls (self : t) : bool :=
  Nat.eqb (calls self) (expected_calls self).

Definition is_ping (s : sender) : bool :=
  String.eqb (sender_name s) "celery.ping".
End SignalCounter.

(* ===================================================================== *)
(** ** Lemmas on lists, the partition and the queue *)

Lemma skipn_length_app {A} (l evs : list A) :
  skipn (List.length l) (l ++ evs) = evs.
Proof.
  induction l as [|x l IH]; simpl; auto.
Qed.

Lemma partition_acc (requests acc0 acc1 : list Request.t) :
  fold_left acks_late_append requests (acc0, acc1) =
  (acc0 ++ immediate requests, acc1 ++ deferred requests).
Proof.
  revert acc0 acc1.
  induction requests as [|r rs IH]; intros acc0 acc1; simpl.
  - now rewrite !app_nil_r.
  - unfold acks_late_append at 2. unfold late. simpl.
    destruct (acks_late (Request.task r)); simpl; rewrite IH;
      now rewrite <- app_assoc.
Qed.

Lemma partition_flush (requests : list Request.t) :
  fold_left acks_late_append requests ([], []) =
  (immediate requests, deferred requests).
Proof. apply partition_acc. Qed.

Lemma partition_covers (requests : list Request.t) :
  requests <> [] ->
  nonempty (deferred requests) || nonempty (immediate requests) = true.
Proof.
  destruct requests as [|r rs]; [congruence|]. intros _.
  unfold deferred, immediate. simpl.
  destruct (late r); simpl; auto. apply orb_true_r.
Qed.

Lemma partition_permutation (requests : list Request.t) :
  Permutation (immediate requests ++ deferred requests) requests.
Proof.
  induction requests as [|r rs IH]; simpl; [constructor|].
  unfold immediate, deferred in *. simpl.
  destruct (late r); simpl.
  - apply Permutation_sym, Permutation_cons_app, Permutation_sym, IH.
  - now constructor.
Qed.

Lemma consume_queue_cons {A} (item : A) (rest : Queue.t A) :
  consume_queue (item :: rest) =
  (item :: fst (consume_queue rest), snd (consume_queue rest)).
Proof. rewrite (consume_queue_equation_1 A (item :: rest)). reflexivity. Qed.

Lemma consume_queue_all {A} (queue : Queue.t A) :
  consume_queue queue = (queue, Queue.empty).
Proof.
  induction queue as [|item rest IH].
  - now simp consume_queue.
  - rewrite consume_queue_cons, IH. reflexivity.
Qed.

Lemma put_all {A} (items : list A) (q : Queue.t A) :
  fold_left Queue.put items q = q ++ items.
Proof.
  revert q. induction items as [|x xs IH]; intros q; simpl.
  - now rewrite app_nil_r.
  - rewrite IH. unfold Queue.put. now rewrite <- app_assoc.
Qed.

(* ===================================================================== *)
(** ** Equations of the methods *)

Lemma flush_cases (requests : list Request.t) (w : World) :
  flush requests w =
  (fst (flush_outcome requests w),
   with_trace w
     (trace w ++ CallFlush requests :: snd (flush_outcome requests w))).
Proof.
  unfold flush, flush_outcome, bind, emit, lift, read, raise, apply_async.
  rewrite partition_flush. cbn [fst snd].
  destruct requests as [|r rs]; [reflexivity|].
  assert (Hcov := partition_covers (r :: rs)).
  rewrite Hcov by discriminate.
  rewrite andb_true_r. cbn [nonempty negb].
  destruct (list_comp SimpleRequest.from_request (r :: rs)) as [snaps|e];
    [|reflexivity].
  cbn [self with_trace]. destruct (_pool (self w)) as [p|]; [|reflexivity].
  unfold bind, emit, ret, raise. fold (submission_of (r :: rs) snaps).
  cbn [fst snd trace with_trace].
  rewrite <- app_assoc. simpl app.
  destruct (accepts p (submission_of (r :: rs) snaps)); reflexivity.
Qed.

Lemma flush_outcome_self (requests : list Request.t) (w w' : World) :
  _pool (self w') = _pool (self w) ->
  flush_outcome requests w' = flush_outcome requests w.
Proof.
  intros Hp. unfold flush_outcome. now rewrite Hp.
Qed.

Lemma do_flush_idle (w : World) :
  _buffer (self w) = [] ->
  _do_flush w =
  (Ok tt,
   with_trace
     (with_timer (with_self w (set_tref (self w) None))
        (match _tref (self w) with
         | Some t => List.remove Nat.eq_dec t (timer_entries w)
         | None => timer_entries w
         end)
        (timer_fresh w))
     (trace w ++ Log WakeUp :: Log CancelingTimer ::
        map Cancel (entries_of (_tref (self w))))).
Proof.
  intros Hb.
  unfold _do_flush, logger_debug, bind, emit, read, ret, update, cancel.
  cbn [self with_trace with_self with_timer trace timer_entries timer_fresh].
  rewrite Hb. cbn [Queue.qsize List.length Nat.eqb].
  cbn [self with_trace with_self with_timer trace timer_entries timer_fresh].
  destruct (_tref (self w)) as [t|] eqn:Ht;
    cbn [self with_trace with_self with_timer trace timer_entries timer_fresh
         entries_of map];
    rewrite <- !app_assoc; reflexivity.
Qed.

Lemma do_flush_busy (w : World) :
  _buffer (self w) <> [] ->
  _do_flush w =
  (match fst (flush_outcome (_buffer (self w)) w) with
   | Ok _ => Ok tt
   | Raise e => Raise e
   end,
   with_trace (with_self w (set_buffer (self w) Queue.empty))
     (trace w ++ Log WakeUp ::
        Log (BufferComplete (List.length (_buffer (self w)))) ::
        CallFlush (_buffer (self w)) ::
        snd (flush_outcome (_buffer (self w)) w))).
Proof.
  intros Hb.
  unfold _do_flush, logger_debug, drain_buffer.
  unfold bind at 1. unfold emit at 1.
  unfold bind at 1. unfold read at 1.
  cbn [self with_trace].
  destruct (_buffer (self w)) as [|r rs] eqn:Hbuf; [congruence|].
  cbn [Queue.qsize List.length Nat.eqb].
  unfold bind at 1. unfold bind at 1. unfold bind at 1.
  cbn [self with_trace]. rewrite Hbuf, consume_queue_all.
  cbn [fst snd nonempty].
  unfold bind at 1. unfold bind at 1. unfold emit at 1.
  unfold bind at 1. rewrite flush_cases.
  rewrite flush_outcome_self with (w := w) by reflexivity.
  cbn [fst snd trace with_trace with_self self].
  destruct (fst (flush_outcome (r :: rs) w)) as [h|e];
    unfold ret; cbn [negb nonempty];
    rewrite <- !app_assoc; reflexivity.
Qed.

Lemma handler_split (task : Task) (hostname : pyval) (message : Message)
    (w : World) :
  task_message_handler task hostname message w =
  (n <- arrival task hostname message ;;
   every <- read flush_every ;;
   r <- py_mod n every ;;
   if r =? 0 then _do_flush else ret tt)%M w.
Proof.
  unfold task_message_handler, arrival, bind, Req, update, read, next_count,
    call_repeatedly, ret.
  cbn [self with_self with_heap_fresh set_buffer _tref].
  destruct (_tref (self w)); reflexivity.
Qed.

Lemma arrival_result (task : Task) (hostname : pyval) (message : Message)
    (w : World) :
  arrival task hostname message w =
  (Ok (_count (self w)), arrived task hostname message w).
Proof.
  unfold arrived, arrival, bind, Req, update, read, next_count,
    call_repeatedly, ret.
  cbn [self with_self with_heap_fresh set_buffer _tref].
  destruct (_tref (self w)); reflexivity.
Qed.

Lemma arrived_facts (task : Task) (hostname : pyval) (message : Message)
    (w : World) :
  let w1 := arrived task hostname message w in
  _buffer (self w1) = _buffer (self w) ++ [new_request task hostname message w] /\
  _count (self w1) = _count (self w) + 1 /\
  _tref (self w1) =
    Some (match _tref (self w) with Some t => t | None => timer_fresh w end) /\
  timer_entries w1 =
    match _tref (self w) with
    | Some _ => timer_entries w
    | None => timer_entries w ++ [timer_fresh w]
    end /\
  trace w1 = trace w ++
    match _tref (self w) with
    | Some _ => []
    | None => [CallRepeatedly (flush_interval (self w)) (timer_fresh w)]
    end /\
  flush_every (self w1) = flush_every (self w) /\
  _pool (self w1) = _pool (self w) /\
  Request.task (new_request task hostname message w) = task /\
  Request.oid (new_request task hostname message w) = heap_fresh w.
Proof.
  unfold arrived, arrival, new_request, bind, Req, update, read, next_count,
    call_repeatedly, ret, Queue.put.
  cbn [self with_self with_heap_fresh set_buffer _tref fst].
  destruct (_tref (self w)) eqn:E; cbn; rewrite ?E, ?app_nil_r;
    repeat split; reflexivity.
Qed.

Lemma handler_cases (task : Task) (hostname : pyval) (message : Message)
    (w : World) :
  task_message_handler task hostname message w =
  let w1 := arrived task hostname message w in
  if flush_every (self w) =? 0 then (Raise ZeroDivisionError, w1)
  else if _count (self w) mod flush_every (self w) =? 0 then _do_flush w1
  else (Ok tt, w1).
Proof.
  rewrite handler_split. unfold bind at 1. rewrite arrival_result.
  destruct (arrived_facts task hostname message w)
    as (_ & _ & _ & _ & _ & Hevery & _).
  unfold bind at 1. unfold read at 1. rewrite Hevery.
  unfold bind at 1. unfold py_mod.
  destruct (flush_every (self w) =? 0); [reflexivity|].
  unfold ret at 1.
  destruct (_count (self w) mod flush_every (self w) =? 0); reflexivity.
Qed.

Lemma remove_single (t : Tref) : List.remove Nat.eq_dec t [t] = [].
Proof.
  simpl. destruct (Nat.eq_dec t t); congruence.
Qed.

Lemma do_flush_drains (w : World) : _buffer (self (snd (_do_flush w))) = [].
Proof.
  destruct (_buffer (self w)) as [|r rs] eqn:Hb.
  - rewrite do_flush_idle by assumption. exact Hb.
  - rewrite do_flush_busy by congruence. reflexivity.
Qed.

Lemma do_flush_count (w : World) :
  _count (self (snd (_do_flush w))) = _count (self w).
Proof.
  destruct (_buffer (self w)) as [|r rs] eqn:Hb.
  - rewrite do_flush_idle by assumption. reflexivity.
  - rewrite do_flush_busy by congruence. reflexivity.
Qed.

Lemma do_flush_inv (task : Task) (every : Z) (w : World) :
  scheduler_inv task every w ->
  scheduler_inv task every (snd (_do_flush w)).
Proof.
  intros (Hent & Harm & Htask & Hevery).
  destruct (_buffer (self w)) as [|r rs] eqn:Hb.
  - rewrite do_flush_idle by assumption. unfold scheduler_inv. cbn.
    rewrite Hb. repeat split; auto; try congruence.
    rewrite Hent. destruct (_tref (self w)); [apply remove_single|reflexivity].
  - rewrite do_flush_busy by congruence. unfold scheduler_inv. cbn.
    repeat split; auto.
Qed.

Lemma arrived_inv (task : Task) (every : Z) (hostname : pyval)
    (message : Message) (w : World) :
  scheduler_inv task every w ->
  scheduler_inv task every (arrived task hostname message w).
Proof.
  intros (Hent & Harm & Htask & Hevery).
  destruct (arrived_facts task hostname message w)
    as (Hb & _ & Ht & He & _ & Hk & _ & Hrt & _).
  unfold scheduler_inv. rewrite Hb, Ht, He, Hk.
  repeat split; auto; try congruence.
  - rewrite Hent. destruct (_tref (self w)); reflexivity.
  - apply Forall_app. split; auto.
Qed.

Lemma perform_inv (task : Task) (every : Z) (hostname : pyval) (a : Action)
    (w : World) :
  scheduler_inv task every w ->
  scheduler_inv task every (snd (perform task hostname a w)).
Proof.
  intros Hinv. destruct a as [message|]; simpl.
  - rewrite handler_cases. cbv zeta.
    pose proof (arrived_inv task every hostname message w Hinv) as Hinv1.
    destruct (flush_every (self w) =? 0); [exact Hinv1|].
    destruct (_count (self w) mod flush_every (self w) =? 0);
      [apply do_flush_inv|]; exact Hinv1.
  - now apply do_flush_inv.
Qed.

Lemma perform_count (task : Task) (hostname : pyval) (a : Action) (w : World) :
  _count (self (snd (perform task hostname a w))) =
  _count (self w) + Z.of_nat (ingress_calls [a]).
Proof.
  destruct a as [message|]; simpl perform; simpl ingress_calls.
  - rewrite handler_cases. cbv zeta.
    destruct (arrived_facts task hostname message w) as (_ & Hc & _).
    destruct (flush_every (self w) =? 0); [simpl; lia|].
    destruct (_count (self w) mod flush_every (self w) =? 0);
      [rewrite do_flush_count|]; simpl; lia.
  - rewrite do_flush_count. simpl. lia.
Qed.

Lemma run_inv (task : Task) (every : Z) (hostname : pyval)
    (acts : list Action) (w : World) :
  scheduler_inv task every w ->
  scheduler_inv task every (run task hostname acts w).
Proof.
  revert w. induction acts as [|a acts IH]; intros w Hinv; simpl; auto.
  apply IH. now apply perform_inv.
Qed.

Lemma run_count (task : Task) (hostname : pyval) (acts : list Action)
    (w : World) :
  _count (self (run task hostname acts w)) =
  _count (self w) + Z.of_nat (ingress_calls acts).
Proof.
  revert w. induction acts as [|a acts IH]; intros w; simpl run.
  - simpl. lia.
  - rewrite IH, perform_count. destruct a; simpl ingress_calls; lia.
Qed.

Lemma started_inv (task : Task) (consumer : Consumer) (every : Z) (secs : Q)
    (uuids : nat -> string) (node : string) :
  scheduler_inv task every (started task consumer every secs uuids node).
Proof.
  unfold scheduler_inv. cbn. repeat split; auto.
Qed.

Lemma reachable_inv (task : Task) (consumer : Consumer) (every : Z) (secs : Q)
    (uuids : nat -> string) (node : string) (w : World) :
  reachable task consumer every secs uuids node w ->
  scheduler_inv task every w.
Proof.
  intros [acts ->]. apply run_inv, started_inv.
Qed.

(* ===================================================================== *)
(** ** What the methods add to the trace *)

Lemma emitted_flush (requests : list Request.t) (w : World) :
  emitted (flush requests) w =
  CallFlush requests :: snd (flush_outcome requests w).
Proof.
  unfold emitted. rewrite flush_cases. cbn [snd trace with_trace].
  apply skipn_length_app.
Qed.

Lemma do_flush_trace (w : World) :
  trace (snd (_do_flush w)) = trace w ++ do_flush_events w.
Proof.
  unfold do_flush_events.
  destruct (_buffer (self w)) as [|r rs] eqn:Hb.
  - rewrite do_flush_idle by assumption. reflexivity.
  - rewrite do_flush_busy by congruence. rewrite Hb. reflexivity.
Qed.

Lemma emitted_do_flush (w : World) : emitted _do_flush w = do_flush_events w.
Proof.
  unfold emitted. rewrite do_flush_trace. apply skipn_length_app.
Qed.

Lemma registered_app (evs evs' : list Event) :
  registered (evs ++ evs') = registered evs ++ registered evs'.
Proof. apply flat_map_app. Qed.

Lemma flushed_app (evs evs' : list Event) :
  flushed (evs ++ evs') = flushed evs ++ flushed evs'.
Proof. apply flat_map_app. Qed.

Lemma flush_outcome_registered (requests : list Request.t) (w : World)
    (s : Submission) :
  In s (registered (snd (flush_outcome requests w))) ->
  requests <> [] /\
  exists snaps,
    list_comp SimpleRequest.from_request requests = Ok snaps /\
    s = submission_of requests snaps.
Proof.
  unfold flush_outcome.
  destruct requests as [|r rs]; [intros []|].
  destruct (list_comp SimpleRequest.from_request (r :: rs)) as [snaps|e];
    [|intros []].
  destruct (_pool (self w)) as [p|]; [|intros []].
  simpl. intros [<-|[]]. split; [discriminate|]. now exists snaps.
Qed.

Lemma flush_outcome_flushed (requests : list Request.t) (w : World) :
  flushed (snd (flush_outcome requests w)) = [].
Proof.
  unfold flush_outcome.
  destruct requests as [|r rs]; [reflexivity|].
  destruct (list_comp SimpleRequest.from_request (r :: rs)); [|reflexivity].
  destruct (_pool (self w)); reflexivity.
Qed.

Lemma do_flush_flushed (w : World) :
  flushed (do_flush_events w) =
  match _buffer (self w) with
  | [] => []
  | _ :: _ => [_buffer (self w)]
  end.
Proof.
  unfold do_flush_events.
  destruct (_buffer (self w)) as [|r rs].
  - destruct (_tref (self w)); reflexivity.
  - pose proof (flush_outcome_flushed (r :: rs) w) as Hf.
    unfold flushed in *. cbn [flat_map app]. now rewrite Hf.
Qed.

Lemma from_request_not_assertion (r : Request.t) :
  SimpleRequest.from_request r <> Raise AssertionError.
Proof.
  unfold SimpleRequest.from_request.
  destruct r as [o t p i n d h ig rt c]. simpl.
  destruct p as [p|]; simpl; [|discriminate].
  unfold unpack3.
  destruct (py_iter p) as [[|a [|b [|c' [|? ?]]]]|]; simpl;
    try discriminate.
  destruct i, n, d, h, rt, c; simpl; discriminate.
Qed.

Lemma list_comp_not_assertion (requests : list Request.t) :
  list_comp SimpleRequest.from_request requests <> Raise AssertionError.
Proof.
  induction requests as [|x l IH]; simpl; [discriminate|].
  pose proof (from_request_not_assertion x) as Hx.
  destruct (SimpleRequest.from_request x) as [y|e]; simpl; [|congruence].
  destruct (list_comp SimpleRequest.from_request l); simpl;
    [discriminate|congruence].
Qed.

Lemma flush_outcome_not_assertion (requests : list Request.t) (w : World) :
  requests <> [] -> fst (flush_outcome requests w) <> Raise AssertionError.
Proof.
  unfold flush_outcome. destruct requests as [|r rs]; [congruence|]. intros _.
  pose proof (list_comp_not_assertion (r :: rs)) as Hl.
  destruct (list_comp SimpleRequest.from_request (r :: rs)) as [snaps|e].
  - destruct (_pool (self w)) as [p|]; simpl; [|discriminate].
    destruct (accepts p _); discriminate.
  - simpl. congruence.
Qed.

Lemma list_comp_snapshotable (requests : list Request.t) :
  Forall snapshotable requests ->
  exists snaps, list_comp SimpleRequest.from_request requests = Ok snaps.
Proof.
  induction 1 as [|r rs [s Hs] _ [snaps IH]]; simpl.
  - now exists [].
  - rewrite Hs, IH. simpl. now eexists.
Qed.

Lemma list_comp_raises (requests : list Request.t) (r : Request.t) (e : exn) :
  In r requests ->
  SimpleRequest.from_request r = Raise e ->
  exists e', list_comp SimpleRequest.from_request requests = Raise e'.
Proof.
  induction requests as [|x xs IH]; intros Hin Hr; [destruct Hin|].
  simpl. destruct (SimpleRequest.from_request x) as [y|ex] eqn:Hx; simpl.
  - destruct Hin as [->|Hin]; [congruence|].
    destruct (IH Hin Hr) as [e' ->]. simpl. now exists e'.
  - now exists ex.
Qed.

Lemma from_request_missing (r : Request.t) :
  missing_required r = true ->
  exists e, SimpleRequest.from_request r = Raise e.
Proof.
  unfold missing_required, SimpleRequest.from_request.
  destruct r as [o t p i n d h ig rt c]. simpl.
  destruct p as [p|]; simpl; [|eauto].
  destruct (unpack3 p) as [[[a k] em]|e]; simpl; [|eauto].
  destruct i; simpl; [|eauto]. destruct n; simpl; [|eauto].
  destruct d; simpl; [|eauto]. destruct h; simpl; [|eauto].
  destruct rt; simpl; [|eauto]. destruct c; simpl; [|eauto].
  discriminate.
Qed.

Lemma flush_submits (requests : list Request.t) (w : World) :
  requests <> [] ->
  Forall snapshotable requests ->
  _pool (self w) <> None ->
  exists snaps,
    list_comp SimpleRequest.from_request requests = Ok snaps /\
    emitted (flush requests) w =
      [CallFlush requests; ApplyAsync (submission_of requests snaps)].
Proof.
  intros Hne Hsnap Hpool.
  destruct (list_comp_snapshotable requests Hsnap) as [snaps Hl].
  exists snaps. split; [exact Hl|].
  rewrite emitted_flush. unfold flush_outcome.
  destruct requests as [|r rs]; [congruence|].
  rewrite Hl. destruct (_pool (self w)); [reflexivity|congruence].
Qed.

Lemma deferred_nonempty (requests : list Request.t) :
  nonempty (deferred requests) = existsb late requests.
Proof.
  induction requests as [|r rs IH]; simpl; auto.
  unfold deferred in *. simpl. destruct (late r); simpl; auto.
Qed.


Lemma flush_outcome_events (requests : list Request.t) (w : World)
    (e : Event) :
  In e (snd (flush_outcome requests w)) -> exists s, e = ApplyAsync s.
Proof.
  unfold flush_outcome.
  destruct requests as [|r rs]; [intros []|].
  destruct (list_comp SimpleRequest.from_request (r :: rs)) as [snaps|x];
    [|intros []].
  destruct (_pool (self w)) as [p|]; [|intros []].
  simpl. intros [<-|[]]. now eexists.
Qed.

Lemma arrived_trace (task : Task) (hostname : pyval) (message : Message)
    (w : World) :
  trace (arrived task hostname message w) = trace w ++ arm_events w.
Proof.
  destruct (arrived_facts task hostname message w)
    as (_ & _ & _ & _ & Ht & _).
  exact Ht.
Qed.

Lemma emitted_handler (task : Task) (hostname : pyval) (message : Message)
    (w : World) :
  emitted (task_message_handler task hostname message) w =
  arm_events w ++
  (if flush_every (self w) =? 0 then []
   else if _count (self w) mod flush_every (self w) =? 0
        then do_flush_events (arrived task hostname message w)
        else []).
Proof.
  unfold emitted. rewrite handler_cases. cbv zeta.
  destruct (flush_every (self w) =? 0);
    [|destruct (_count (self w) mod flush_every (self w) =? 0)];
    cbn [snd]; rewrite ?do_flush_trace, arrived_trace, ?app_nil_r,
      <- ?app_assoc; apply skipn_length_app.
Qed.

Lemma arm_events_quiet (w : World) :
  ~ In (Log WakeUp) (arm_events w) /\ flushed (arm_events w) = [] /\
  registered (arm_events w) = [].
Proof.
  unfold arm_events. destruct (_tref (self w)); simpl; intuition discriminate.
Qed.

Lemma do_flush_events_wake (w : World) : In (Log WakeUp) (do_flush_events w).
Proof.
  unfold do_flush_events. destruct (_buffer (self w)); now left.
Qed.

Lemma do_flush_ok_or_not_assertion (w : World) :
  fst (_do_flush w) <> Raise AssertionError.
Proof.
  destruct (_buffer (self w)) as [|r rs] eqn:Hb.
  - rewrite do_flush_idle by assumption. discriminate.
  - rewrite do_flush_busy by congruence. cbn [fst]. rewrite Hb.
    pose proof (flush_outcome_not_assertion (r :: rs) w) as Hn.
    destruct (fst (flush_outcome (r :: rs) w)); [discriminate|].
    intros [= ->]. now apply Hn.
Qed.

Lemma handler_arms (task : Task) (hostname : pyval) (message : Message)
    (w : World) :
  armed (snd (task_message_handler task hostname message w)).
Proof.
  unfold armed. rewrite handler_cases. cbv zeta.
  destruct (arrived_facts task hostname message w)
    as (Hb & _ & Ht & _).
  assert (Ha : _tref (self (arrived task hostname message w)) <> None)
    by now rewrite Ht.
  destruct (flush_every (self w) =? 0); [exact Ha|].
  destruct (_count (self w) mod flush_every (self w) =? 0); [|exact Ha].
  rewrite do_flush_busy.
  - exact Ha.
  - rewrite Hb. now destruct (_buffer (self w)).
Qed.

(* ===================================================================== *)
(** ** The pending buffer *)

(** C4. Pushing [items] into an empty buffer and draining it once returns
    [items] in push order and leaves the buffer empty; draining an empty
    buffer returns the empty sequence; a second drain right after a drain
    returns the empty sequence. *)
Theorem consume_queue_fifo {A} (items : list A) :
  let buffer := fold_left Queue.put items Queue.empty in
  consume_queue buffer = (items, Queue.empty) /\
  consume_queue (@Queue.empty A) = ([], Queue.empty) /\
  consume_queue (snd (consume_queue buffer)) = ([], Queue.empty).
Proof.
  cbv zeta. rewrite put_all. simpl app.
  rewrite !consume_queue_all. simpl. auto.
Qed.

(* ===================================================================== *)
(** ** The batch adapter *)

(** C6. When the request carries every field of the snapshot, with a payload
    that unpacks to [(args, kwargs, embed)], [from_request] returns the
    snapshot holding exactly the request's values; in particular the
    request's own [ignore_result] is kept, not the default [False]. *)
Theorem from_request_fidelity (request : Request.t)
    (payload args kwargs embed id name delivery_info hostname ignore_result
       reply_to correlation_id : pyval) :
  Request._payload request = Some payload ->
  unpack3 payload = Ok (args, kwargs, embed) ->
  Request.id request = Some id ->
  Request.name request = Some name ->
  Request.delivery_info request = Some delivery_info ->
  Request.hostname request = Some hostname ->
  Request.ignore_result request = Some ignore_result ->
  Request.reply_to request = Some reply_to ->
  Request.correlation_id request = Some correlation_id ->
  SimpleRequest.from_request request =
  Ok {| SimpleRequest.id := id;
        SimpleRequest.name := name;
        SimpleRequest.args := args;
        SimpleRequest.kwargs := kwargs;
        SimpleRequest.delivery_info := delivery_info;
        SimpleRequest.hostname := hostname;
        SimpleRequest.ignore_result := ignore_result;
        SimpleRequest.reply_to := reply_to;
        SimpleRequest.correlation_id := correlation_id |}.
Proof.
  intros Hp Hu Hi Hn Hd Hh Hig Hr Hc.
  unfold SimpleRequest.from_request.
  rewrite Hp, Hi, Hn, Hd, Hh, Hig, Hr, Hc. simpl. rewrite Hu. reflexivity.
Qed.

Lemma from_request_fidelity_witness :
  SimpleRequest.from_request (request_of 7 add_task 5) =
  Ok {| SimpleRequest.id := PyInt 5;
        SimpleRequest.name := PyStr "t.integration.tasks.add";
        SimpleRequest.args := PyTuple [PyInt 5];
        SimpleRequest.kwargs := PyDict [];
        SimpleRequest.delivery_info := PyDict [];
        SimpleRequest.hostname := PyStr "celery@worker";
        SimpleRequest.ignore_result := PyBool true;
        SimpleRequest.reply_to := PyNone;
        SimpleRequest.correlation_id := PyNone |}.
Proof.
  apply (from_request_fidelity (request_of 7 add_task 5)
           (PyTuple [PyTuple [PyInt 5]; PyDict []; PyDict []])
           (PyTuple [PyInt 5]) (PyDict []) (PyDict []));
    reflexivity.
Defined.

(* ===================================================================== *)
(** ** The batch dispatcher *)

(** C7. If some request of the batch, at any position, lacks a field that the
    snapshot requires, [flush] raises; it has called nothing but itself: no
    [apply_async], hence no callback that could acknowledge an item, and the
    instance is unchanged. *)
Theorem flush_malformed_aborts (requests : list Request.t) (r : Request.t)
    (w : World) :
  In r requests ->
  missing_required r = true ->
  (exists e, fst (flush requests w) = Raise e) /\
  emitted (flush requests) w = [CallFlush requests] /\
  registered (emitted (flush requests) w) = [] /\
  flat_map acknowledgments (registered (emitted (flush requests) w)) = [] /\
  self (snd (flush requests w)) = self w.
Proof.
  intros Hin Hmiss.
  destruct (from_request_missing r Hmiss) as [e He].
  destruct (list_comp_raises requests r e Hin He) as [e' Hl].
  assert (Hout : flush_outcome requests w = (Raise e', [])).
  { unfold flush_outcome. destruct requests as [|x xs]; [destruct Hin|].
    now rewrite Hl. }
  rewrite emitted_flush, flush_cases, Hout. simpl.
  repeat split; eauto.
Qed.

Lemma flush_malformed_aborts_witness :
  (exists e,
     fst (flush [request_of 0 add_task 1; request_without_id 1 add_task 2]
            worker_start) = Raise e) /\
  registered
    (emitted (flush [request_of 0 add_task 1; request_without_id 1 add_task 2])
       worker_start) = [].
Proof.
  destruct (flush_malformed_aborts
              [request_of 0 add_task 1; request_without_id 1 add_task 2]
              (request_without_id 1 add_task 2) worker_start)
    as (He & _ & Hreg & _).
  - simpl. auto.
  - reflexivity.
  - split; [exact He|exact Hreg].
Defined.

(** C1. For a non-empty batch, whatever [flush] hands to the pool has an
    acceptance callback that acknowledges the requests whose task has
    [acks_late] false, in batch order, and a completion callback that
    acknowledges those whose task has [acks_late] true, in batch order; when
    both fire once the acknowledgments are a permutation of the batch, so a
    batch of distinct objects has each one acknowledged exactly once.  And
    [flush] does hand the batch to the pool when every snapshot can be taken
    and a pool is set. *)
Theorem flush_partition_acknowledges (requests : list Request.t) (w : World) :
  requests <> [] ->
  (forall s, In s (registered (emitted (flush requests) w)) ->
     fire (accept_callback s) =
       filter (fun r => negb (acks_late (Request.task r))) requests /\
     fire (callback s) =
       filter (fun r => acks_late (Request.task r)) requests /\
     Permutation (acknowledgments s) requests /\
     (NoDup (map Request.oid requests) ->
      forall r, In r requests -> times_acknowledged s r = 1%nat)) /\
  (Forall snapshotable requests -> _pool (self w) <> None ->
   exists s, registered (emitted (flush requests) w) = [s]).
Proof.
  intros Hne. split.
  - intros s Hs. rewrite emitted_flush in Hs. simpl in Hs.
    apply flush_outcome_registered in Hs as (_ & snaps & _ & ->).
    assert (Hacc : fire (accept_callback (submission_of requests snaps)) =
                   immediate requests) by reflexivity.
    assert (Hcb : fire (callback (submission_of requests snaps)) =
                  deferred requests).
    { simpl. destruct (deferred requests); reflexivity. }
    assert (Hperm : Permutation (acknowledgments (submission_of requests snaps))
                      requests).
    { unfold acknowledgments. rewrite Hacc, Hcb. apply partition_permutation. }
    repeat split; auto.
    intros Hnd r Hr. unfold times_acknowledged.
    assert (Hp : Permutation
                   (map Request.oid
                      (acknowledgments (submission_of requests snaps)))
                   (map Request.oid requests))
      by now apply Permutation_map.
    rewrite (proj1 (Permutation_count_occ Nat.eq_dec _ _) Hp).
    apply NoDup_count_occ'; [exact Hnd|]. now apply in_map.
  - intros Hsnap Hpool.
    destruct (flush_submits requests w Hne Hsnap Hpool) as (snaps & _ & ->).
    now eexists.
Qed.

Lemma flush_partition_acknowledges_witness :
  exists s,
    registered (emitted (flush mixed_batch) worker_start) = [s] /\
    fire (accept_callback s) =
      [request_of 0 add_task 1; request_of 1 add_task 2] /\
    fire (callback s) = [request_of 2 late_task 3] /\
    times_acknowledged s (request_of 2 late_task 3) = 1%nat.
Proof.
  destruct (flush_partition_acknowledges mixed_batch worker_start)
    as [Hall Hex]; [discriminate|].
  destruct Hex as [s Hs].
  - repeat constructor; eexists; reflexivity.
  - discriminate.
  - exists s. split; [exact Hs|].
    destruct (Hall s) as (Ha & Hc & _ & Hone).
    + rewrite Hs. now left.
    + repeat split; [exact Ha|exact Hc|].
      apply Hone.
      * repeat constructor; simpl; intuition discriminate.
      * simpl. auto.
Defined.

(** C8. Whatever [flush] hands to the pool has [noop] as completion callback
    when no request of the batch has [acks_late] true, and the deferred
    acknowledgment handler [on_return] (over the requests with [acks_late]
    true) when at least one has; and for a non-empty batch whose snapshots can
    be taken, with a pool set, [flush] does hand exactly one submission to the
    pool. *)
Theorem flush_completion_callback (requests : list Request.t) (w : World) :
  (forall s, In s (registered (emitted (flush requests) w)) ->
     (existsb (fun r => acks_late (Request.task r)) requests = false ->
      callback s = noop) /\
     (existsb (fun r => acks_late (Request.task r)) requests = true ->
      callback s =
        on_return (filter (fun r => acks_late (Request.task r)) requests))) /\
  (requests <> [] -> Forall snapshotable requests -> _pool (self w) <> None ->
   exists s, registered (emitted (flush requests) w) = [s]).
Proof.
  split.
  - intros s Hs. rewrite emitted_flush in Hs. simpl in Hs.
    apply flush_outcome_registered in Hs as (_ & snaps & _ & ->).
    unfold submission_of. cbn [callback].
    rewrite deferred_nonempty. unfold late.
    split; intros ->; reflexivity.
  - intros Hne Hsnap Hpool.
    destruct (flush_submits requests w Hne Hsnap Hpool) as (snaps & _ & ->).
    now eexists.
Qed.

Lemma flush_completion_callback_witness :
  (exists s,
     registered (emitted (flush mixed_batch) worker_start) = [s] /\
     callback s = on_return [request_of 2 late_task 3]) /\
  (exists s,
     registered (emitted (flush [request_of 0 add_task 1]) worker_start) = [s] /\
     callback s = noop).
Proof.
  split.
  - destruct (flush_completion_callback mixed_batch worker_start)
      as [Hall Hex].
    destruct Hex as [s Hs];
      [discriminate | repeat constructor; eexists; reflexivity
       | discriminate |].
    exists s. split; [exact Hs|].
    apply (Hall s); [rewrite Hs; now left | reflexivity].
  - destruct (flush_completion_callback [request_of 0 add_task 1] worker_start)
      as [Hall Hex].
    destruct Hex as [s Hs];
      [discriminate | repeat constructor; eexists; reflexivity
       | discriminate |].
    exists s. split; [exact Hs|].
    apply (Hall s); [rewrite Hs; now left | reflexivity].
Defined.



(* ===================================================================== *)
(** ** The flush trigger *)

(** C2. With [flush_every = every > 0], after any run with [n - 1] ingress
    calls (and any number of flush attempts in between) the [n]-th ingress
    call runs [_do_flush] inside the call, in the world where the new request
    is already in the buffer, exactly when [every] divides [n]: then the
    batch flushed is the old buffer followed by the new request; otherwise
    the call ends after the insertion, with no flush attempt at all. *)
Theorem count_trigger_exact (task : Task) (consumer : Consumer) (every : Z)
    (secs : Q) (uuids : nat -> string) (node : string) (acts : list Action)
    (message : Message) :
  0 < every ->
  let w := run task (hostname consumer) acts
               (started task consumer every secs uuids node) in
  let n := Z.of_nat (S (ingress_calls acts)) in
  let call := task_message_handler task (hostname consumer) message in
  let w1 := arrived task (hostname consumer) message w in
  (n mod every = 0 ->
     call w = _do_flush w1 /\
     In (Log WakeUp) (emitted call w) /\
     flushed (emitted call w) =
       [_buffer (self w) ++
        [new_request task (hostname consumer) message w]]) /\
  (n mod every <> 0 ->
     call w = (Ok tt, w1) /\
     ~ In (Log WakeUp) (emitted call w) /\
     flushed (emitted call w) = []).
Proof.
  intros Hpos w n call w1.
  assert (Hinv : scheduler_inv task every w)
    by apply run_inv, started_inv.
  destruct Hinv as (_ & _ & _ & Hevery).
  assert (Hcount : _count (self w) = n).
  { unfold w, n. rewrite run_count. cbn [started Strategy]. simpl _count. lia. }
  assert (Hnz : (every =? 0) = false) by (apply Z.eqb_neq; lia).
  destruct (arm_events_quiet w) as (Hnw & Hnf & _).
  split; intros Hmod.
  - assert (Hz : (n mod every =? 0) = true) by now apply Z.eqb_eq.
    unfold call. rewrite emitted_handler, handler_cases. cbv zeta.
    rewrite Hevery, Hcount, Hnz, Hz. fold w1.
    repeat split.
    + apply in_or_app. right. apply do_flush_events_wake.
    + rewrite flushed_app, Hnf, do_flush_flushed. simpl.
      destruct (arrived_facts task (hostname consumer) message w)
        as (Hb & _). fold w1 in Hb. rewrite Hb.
      now destruct (_buffer (self w)).
  - assert (Hz : (n mod every =? 0) = false) by now apply Z.eqb_neq.
    unfold call. rewrite emitted_handler, handler_cases. cbv zeta.
    rewrite Hevery, Hcount, Hnz, Hz, app_nil_r. fold w1.
    repeat split; assumption.
Qed.

Lemma count_trigger_exact_witness :
  flushed
    (emitted (task_message_handler add_task (hostname worker) (delay 3))
       (run add_task (hostname worker) [Ingress (delay 1)] worker_start)) =
  [_buffer (self (run add_task (hostname worker) [Ingress (delay 1)]
                    worker_start)) ++
   [new_request add_task (hostname worker) (delay 3)
      (run add_task (hostname worker) [Ingress (delay 1)] worker_start)]].
Proof.
  apply (count_trigger_exact add_task worker 2 1 (fun _ => "00000000")
           "localhost" [Ingress (delay 1)] (delay 3)).
  - lia.
  - reflexivity.
Defined.

(** C3, as amended. In every state a started scheduler reaches through
    ingress calls and flush attempts, a non-empty buffer has its timer armed.
    The converse is not claimed: a dispatching flush leaves the timer armed. *)
Theorem nonempty_buffer_is_armed (task : Task) (consumer : Consumer)
    (every : Z) (secs : Q) (uuids : nat -> string) (node : string)
    (w : World) :
  reachable task consumer every secs uuids node w ->
  _buffer (self w) <> [] ->
  armed w.
Proof.
  intros Hreach Hbuf.
  destruct (reachable_inv task consumer every secs uuids node w Hreach)
    as (_ & Harm & _).
  exact (Harm Hbuf).
Qed.

Lemma nonempty_buffer_is_armed_witness :
  armed (run add_task (hostname worker) [Ingress (delay 1)] worker_start).
Proof.
  apply (nonempty_buffer_is_armed add_task worker 2 1 (fun _ => "00000000")
           "localhost").
  - exists [Ingress (delay 1)]. reflexivity.
  - vm_compute. discriminate.
Defined.

(** C3, as stated, fails: after the second ingress call of a task with
    [flush_every = 2] the count trigger has emptied the buffer and the timer
    is still armed. *)
Lemma armed_with_empty_buffer :
  ~ (forall task consumer every secs uuids node w,
       reachable task consumer every secs uuids node w ->
       (armed w <-> _buffer (self w) <> [])).
Proof.
  intros Hclaim.
  assert (Hreach : reachable add_task worker 2 1 (fun _ => "00000000")
                     "localhost"
                     (run add_task (hostname worker)
                        [Ingress (delay 1); Ingress (delay 3)] worker_start))
    by (exists [Ingress (delay 1); Ingress (delay 3)]; reflexivity).
  apply Hclaim in Hreach. destruct Hreach as [Himp _].
  apply Himp; [|reflexivity].
  vm_compute. discriminate.
Qed.

(** C5. In a reachable state, a flush attempt that finds the buffer empty
    dispatches nothing, cancels the timer entry if the handle is armed, clears
    the handle and leaves the timer service without entry to fire, and the
    next ingress call arms a new entry; a flush attempt that finds items calls
    [flush] once, with the buffered items, cancels nothing and leaves the
    handle armed as it was. *)
Theorem flush_attempt_idles_or_dispatches (task : Task) (consumer : Consumer)
    (every : Z) (secs : Q) (uuids : nat -> string) (node : string)
    (w : World) :
  reachable task consumer every secs uuids node w ->
  let w' := snd (_do_flush w) in
  (_buffer (self w) = [] ->
     fst (_do_flush w) = Ok tt /\
     emitted _do_flush w =
       Log WakeUp :: Log CancelingTimer ::
       map Cancel (entries_of (_tref (self w))) /\
     flushed (emitted _do_flush w) = [] /\
     registered (emitted _do_flush w) = [] /\
     _tref (self w') = None /\
     timer_entries w' = [] /\
     forall message,
       let call := task_message_handler task (hostname consumer) message in
       In (CallRepeatedly (flush_interval (self w')) (timer_fresh w'))
          (emitted call w') /\
       armed (snd (call w'))) /\
  (_buffer (self w) <> [] ->
     flushed (emitted _do_flush w) = [_buffer (self w)] /\
     (forall t, ~ In (Cancel t) (emitted _do_flush w)) /\
     armed w' /\
     _tref (self w') = _tref (self w) /\
     timer_entries w' = timer_entries w).
Proof.
  intros Hreach w'.
  destruct (reachable_inv task consumer every secs uuids node w Hreach)
    as (Hent & Harm & _ & _).
  split; intros Hbuf.
  - assert (Hidle := do_flush_idle w Hbuf).
    assert (Hev : do_flush_events w =
                  Log WakeUp :: Log CancelingTimer ::
                  map Cancel (entries_of (_tref (self w))))
      by (unfold do_flush_events; now rewrite Hbuf).
    assert (Hnone : _tref (self w') = None)
      by (unfold w'; now rewrite Hidle).
    rewrite emitted_do_flush, Hev.
    repeat split.
    + now rewrite Hidle.
    + destruct (_tref (self w)); reflexivity.
    + destruct (_tref (self w)); reflexivity.
    + exact Hnone.
    + unfold w'. rewrite Hidle. cbn. rewrite Hent.
      destruct (_tref (self w)); [apply remove_single|reflexivity].
    + rewrite emitted_handler. apply in_or_app. left.
      unfold arm_events. rewrite Hnone. now left.
    + apply handler_arms.
  - assert (Hbusy := do_flush_busy w Hbuf).
    rewrite emitted_do_flush.
    repeat split.
    + rewrite do_flush_flushed. now destruct (_buffer (self w)).
    + intros t Hin. unfold do_flush_events in Hin.
      destruct (_buffer (self w)) as [|r rs]; [congruence|].
      destruct Hin as [Hin|[Hin|[Hin|Hin]]]; try discriminate.
      apply flush_outcome_events in Hin as [s Hs]. discriminate.
    + unfold armed, w'. rewrite Hbusy. cbn. now apply Harm.
    + unfold w'. now rewrite Hbusy.
    + unfold w'. now rewrite Hbusy.
Qed.

Lemma flush_attempt_idles_or_dispatches_witness :
  fst (_do_flush worker_start) = Ok tt /\
  timer_entries (snd (_do_flush worker_start)) = [] /\
  flushed (emitted _do_flush
             (run add_task (hostname worker) [Ingress (delay 1)] worker_start)) =
  [_buffer (self (run add_task (hostname worker) [Ingress (delay 1)]
                    worker_start))].
Proof.
  destruct (flush_attempt_idles_or_dispatches add_task worker 2 1
              (fun _ => "00000000") "localhost" worker_start)
    as [Hidle _]; [exists []; reflexivity|].
  destruct (flush_attempt_idles_or_dispatches add_task worker 2 1
              (fun _ => "00000000") "localhost"
              (run add_task (hostname worker) [Ingress (delay 1)] worker_start))
    as [_ Hbusy]; [exists [Ingress (delay 1)]; reflexivity|].
  destruct Hidle as (Hok & _ & _ & _ & _ & Hent & _); [reflexivity|].
  destruct Hbusy as (Hfl & _); [vm_compute; discriminate|].
  repeat split; assumption.
Defined.

(* ===================================================================== *)
(** ** The eager path and the internal flush path *)

(** C9. [apply] builds one [SimpleRequest] (the given tuple of arguments or
    the empty tuple, the given keyword dict or the empty dict, the supplied
    [task_id] or the string [uuid()] returned, eager delivery info), hands the
    one-element batch to Celery's eager [apply], and touches neither the
    buffer nor the pool.  Every batch that an ingress call or a flush attempt
    passes to [flush] is non-empty, the assertion of [flush] holds for it, and
    [_do_flush] never raises [AssertionError]. *)
Theorem apply_is_eager_and_flush_is_nonempty :
  (forall args kwargs _args options w,
     exists request,
       let call := {| eager_args := [[request]]; eager_kwargs := [];
                      eager_rest := _args; eager_options := options |} in
       fst (apply args kwargs _args options w) = Ok call /\
       emitted (apply args kwargs _args options) w = [SuperApply call] /\
       SimpleRequest.args request =
         PyTuple (match args with Some l => l | None => [] end) /\
       SimpleRequest.kwargs request =
         kwdict_val (match kwargs with Some d => d | None => [] end) /\
       SimpleRequest.id request =
         match kw_lookup options "task_id" with
         | Some task_id => task_id
         | None => PyStr (uuid_source w (uuid_used w))
         end /\
       (exists routing,
          SimpleRequest.delivery_info request =
          PyDict ((PyStr "is_eager", PyBool true) :: routing)) /\
       self (snd (apply args kwargs _args options w)) = self w /\
       timer_entries (snd (apply args kwargs _args options w)) =
         timer_entries w) /\
  (forall task hostname a w batch,
     In batch (flushed (emitted (perform task hostname a) w)) ->
     batch <> [] /\
     (let parts := fold_left acks_late_append batch ([], []) in
      nonempty batch && (nonempty (snd parts) || nonempty (fst parts)) = true)) /\
  (forall w, fst (_do_flush w) <> Raise AssertionError).
Proof.
  split; [|split].
  - intros args kwargs _args options w.
    eexists. cbv zeta.
    unfold emitted, apply, super_apply, bind, uuid, gethostname, emit, ret.
    cbn [fst snd trace with_trace with_uuid_used self timer_entries
         SimpleRequest.args SimpleRequest.kwargs SimpleRequest.id
         SimpleRequest.delivery_info].
    rewrite skipn_length_app.
    repeat split.
    + destruct args as [[|x l]|]; reflexivity.
    + destruct kwargs as [[|x l]|]; reflexivity.
    + eexists. reflexivity.
  - intros task hostname a w batch Hin.
    assert (Hne : batch <> []).
    { destruct a as [message|]; cbn [perform] in Hin.
      - rewrite emitted_handler, flushed_app in Hin.
        destruct (arm_events_quiet w) as (_ & Hq & _). rewrite Hq in Hin.
        destruct (flush_every (self w) =? 0); [destruct Hin|].
        destruct (_count (self w) mod flush_every (self w) =? 0);
          [|destruct Hin].
        simpl in Hin. rewrite do_flush_flushed in Hin.
        destruct (_buffer (self (arrived task hostname message w)));
          [destruct Hin|]. destruct Hin as [<-|[]]. discriminate.
      - rewrite emitted_do_flush, do_flush_flushed in Hin.
        destruct (_buffer (self w)); [destruct Hin|].
        destruct Hin as [<-|[]]. discriminate. }
    split; [exact Hne|]. cbv zeta.
    rewrite partition_flush. cbn [fst snd].
    rewrite (partition_covers batch Hne).
    destruct batch; [congruence|reflexivity].
  - apply do_flush_ok_or_not_assertion.
Qed.

Lemma apply_is_eager_and_flush_is_nonempty_witness :
  _buffer (self (run add_task (hostname worker) [Ingress (delay 1)]
                   worker_start)) ++
  [new_request add_task (hostname worker) (delay 3)
     (run add_task (hostname worker) [Ingress (delay 1)] worker_start)] <> [].
Proof.
  destruct apply_is_eager_and_flush_is_nonempty as (_ & Hflush & _).
  apply (Hflush add_task (hostname worker) (Ingress (delay 3))
           (run add_task (hostname worker) [Ingress (delay 1)] worker_start)).
  vm_compute. left. reflexivity.
Defined.

(* ===================================================================== *)
(** ** Steps of a run *)

Lemma perform_trace (task : Task) (hostname : pyval) (a : Action) (w : World) :
  trace (snd (perform task hostname a w)) =
  trace w ++ emitted (perform task hostname a) w.
Proof.
  destruct a as [message|]; cbn [perform].
  - rewrite emitted_handler, handler_cases. cbv zeta.
    destruct (flush_every (self w) =? 0);
      [|destruct (_count (self w) mod flush_every (self w) =? 0)];
      cbn [snd]; rewrite ?do_flush_trace, arrived_trace, ?app_nil_r,
        <- ?app_assoc; reflexivity.
  - rewrite emitted_do_flush. apply do_flush_trace.
Qed.

Lemma do_flush_heap (w : World) :
  heap_fresh (snd (_do_flush w)) = heap_fresh w.
Proof.
  destruct (_buffer (self w)) as [|r rs] eqn:Hb.
  - rewrite do_flush_idle by assumption. reflexivity.
  - rewrite do_flush_busy by congruence. reflexivity.
Qed.

Lemma arrived_heap (task : Task) (hostname : pyval) (message : Message)
    (w : World) :
  heap_fresh (arrived task hostname message w) = S (heap_fresh w).
Proof.
  unfold arrived, arrival, bind, Req, update, read, next_count,
    call_repeatedly, ret.
  cbn [self with_self with_heap_fresh set_buffer _tref].
  destruct (_tref (self w)); reflexivity.
Qed.

Lemma perform_heap (task : Task) (hostname : pyval) (a : Action) (w : World) :
  heap_fresh (snd (perform task hostname a w)) =
  (heap_fresh w + List.length (arrivals task hostname a w))%nat.
Proof.
  destruct a as [message|]; cbn [perform arrivals List.length].
  - rewrite handler_cases. cbv zeta.
    destruct (flush_every (self w) =? 0);
      [|destruct (_count (self w) mod flush_every (self w) =? 0)];
      cbn [snd]; rewrite ?do_flush_heap, arrived_heap; lia.
  - rewrite do_flush_heap. lia.
Qed.

Lemma do_flush_conserves (w : World) :
  List.concat (flushed (do_flush_events w)) ++ _buffer (self (snd (_do_flush w))) =
  _buffer (self w).
Proof.
  rewrite do_flush_flushed, do_flush_drains.
  destruct (_buffer (self w)); simpl; now rewrite ?app_nil_r.
Qed.

Lemma perform_conserves (task : Task) (hostname : pyval) (a : Action)
    (w : World) :
  List.concat (flushed (emitted (perform task hostname a) w)) ++
  _buffer (self (snd (perform task hostname a w))) =
  _buffer (self w) ++ arrivals task hostname a w.
Proof.
  destruct a as [message|]; cbn [perform arrivals].
  - rewrite emitted_handler, handler_cases, flushed_app. cbv zeta.
    destruct (arm_events_quiet w) as (_ & Hq & _). rewrite Hq. cbn [app].
    destruct (arrived_facts task hostname message w) as (Hb & _).
    destruct (flush_every (self w) =? 0);
      [|destruct (_count (self w) mod flush_every (self w) =? 0)];
      cbn [snd flushed flat_map List.concat app]; try exact Hb.
    rewrite do_flush_conserves. exact Hb.
  - rewrite emitted_do_flush, do_flush_conserves. now rewrite app_nil_r.
Qed.

Lemma perform_dispatched (task : Task) (hostname : pyval) (a : Action)
    (w : World) :
  dispatched (snd (perform task hostname a w)) ++
  _buffer (self (snd (perform task hostname a w))) =
  (dispatched w ++ _buffer (self w)) ++ arrivals task hostname a w.
Proof.
  unfold dispatched.
  rewrite perform_trace, flushed_app, concat_app, <- !app_assoc.
  now rewrite perform_conserves.
Qed.

Lemma run_dispatched (task : Task) (hostname : pyval) (acts : list Action)
    (w : World) :
  dispatched (run task hostname acts w) ++
  _buffer (self (run task hostname acts w)) =
  (dispatched w ++ _buffer (self w)) ++ created task hostname acts w.
Proof.
  revert w. induction acts as [|a acts IH]; intros w; simpl.
  - now rewrite app_nil_r.
  - change (fold_left (fun w a => snd (perform task hostname a w)) acts
              (snd (perform task hostname a w)))
      with (run task hostname acts (snd (perform task hostname a w))).
    rewrite IH, perform_dispatched. now rewrite <- !app_assoc.
Qed.

Lemma created_oids (task : Task) (hostname : pyval) (acts : list Action)
    (w : World) :
  map Request.oid (created task hostname acts w) =
  seq (heap_fresh w) (ingress_calls acts).
Proof.
  revert w. induction acts as [|a acts IH]; intros w; simpl; auto.
  rewrite map_app, IH, perform_heap.
  destruct a as [message|]; cbn [arrivals map List.length app].
  - destruct (arrived_facts task hostname message w)
      as (_ & _ & _ & _ & _ & _ & _ & _ & Hoid).
    rewrite Hoid. simpl. f_equal. f_equal. lia.
  - f_equal. lia.
Qed.

(* ===================================================================== *)
(** ** Conservation of requests *)

(** X1. From the start of the worker, for every run of ingress calls and
    flush attempts (raising or not): the requests handed to [flush] so far,
    batch after batch, followed by the requests still in the buffer, are
    exactly the requests the ingress calls created, in arrival order.  They
    are pairwise distinct objects, so no request is lost, none is flushed
    twice and none is both flushed and still buffered. *)
Theorem requests_are_conserved (task : Task) (consumer : Consumer) (every : Z)
    (secs : Q) (uuids : nat -> string) (node : string) (acts : list Action) :
  let w0 := started task consumer every secs uuids node in
  let w := run task (hostname consumer) acts w0 in
  dispatched w ++ _buffer (self w) =
    created task (hostname consumer) acts w0 /\
  map Request.oid (dispatched w ++ _buffer (self w)) =
    seq 0 (ingress_calls acts) /\
  NoDup (map Request.oid (dispatched w ++ _buffer (self w))).
Proof.
  cbv zeta.
  assert (Heq : dispatched (run task (hostname consumer) acts
                              (started task consumer every secs uuids node)) ++
                _buffer (self (run task (hostname consumer) acts
                              (started task consumer every secs uuids node))) =
                created task (hostname consumer) acts
                  (started task consumer every secs uuids node))
    by (rewrite run_dispatched; reflexivity).
  rewrite Heq, created_oids. repeat split. apply seq_NoDup.
Qed.

(** X4. The insertion counter counts ingress calls and nothing else: after
    any run it is one more than the number of ingress calls made, whether or
    not calls raised and however many flush attempts ran in between; a flush
    never resets it. *)
Theorem counter_counts_ingress_calls (task : Task) (consumer : Consumer)
    (every : Z) (secs : Q) (uuids : nat -> string) (node : string)
    (acts : list Action) :
  _count (self (run task (hostname consumer) acts
                  (started task consumer every secs uuids node))) =
  1 + Z.of_nat (ingress_calls acts).
Proof.
  rewrite run_count. reflexivity.
Qed.

(** X3. In every reachable state the timer service holds exactly the entry
    that [_tref] references and nothing when [_tref] is [None]: the scheduler
    never has two timers running and never leaves a cancelled or forgotten
    entry behind. *)
Theorem at_most_one_timer_entry (task : Task) (consumer : Consumer)
    (every : Z) (secs : Q) (uuids : nat -> string) (node : string)
    (w : World) :
  reachable task consumer every secs uuids node w ->
  timer_entries w = entries_of (_tref (self w)) /\
  (List.length (timer_entries w) <= 1)%nat.
Proof.
  intros Hreach.
  destruct (reachable_inv task consumer every secs uuids node w Hreach)
    as (Hent & _).
  split; [exact Hent|]. rewrite Hent.
  destruct (_tref (self w)); simpl; lia.
Qed.

Lemma at_most_one_timer_entry_witness :
  timer_entries
    (run add_task (hostname worker)
       [Ingress (delay 1); FlushAttempt; Ingress (delay 2)] worker_start) =
  entries_of
    (_tref (self (run add_task (hostname worker)
                    [Ingress (delay 1); FlushAttempt; Ingress (delay 2)]
                    worker_start))).
Proof.
  apply (at_most_one_timer_entry add_task worker 2 1 (fun _ => "00000000")
           "localhost").
  exists [Ingress (delay 1); FlushAttempt; Ingress (delay 2)]. reflexivity.
Defined.

(* ===================================================================== *)
(** ** Batch size *)

Lemma mod_pred_succ (n every : Z) :
  0 < every -> n mod every <> 0 -> (n - 1) mod every + 1 = n mod every.
Proof.
  intros Hpos Hnz.
  pose proof (Z.mod_pos_bound n every Hpos) as Hb.
  assert (Hm : n mod every - 1 = (n - 1) mod every).
  { apply (Z.mod_unique (n - 1) every (n / every)); [left; lia|].
    pose proof (Z.div_mod n every) as Hd. lia. }
  lia.
Qed.

Lemma do_flush_shape (w : World) :
  let w' := snd (_do_flush w) in
  _buffer (self w') = [] /\
  _count (self w') = _count (self w) /\
  flush_every (self w') = flush_every (self w) /\
  flushed (trace w') =
    flushed (trace w) ++
    match _buffer (self w) with [] => [] | _ :: _ => [_buffer (self w)] end.
Proof.
  cbv zeta. rewrite do_flush_trace, flushed_app, do_flush_flushed.
  repeat split.
  - apply do_flush_drains.
  - apply do_flush_count.
  - destruct (_buffer (self w)) as [|r rs] eqn:Hb.
    + rewrite do_flush_idle by assumption. reflexivity.
    + rewrite do_flush_busy by congruence. reflexivity.
Qed.

Lemma do_flush_bounded (every : Z) (w : World) :
  0 < every -> bounded every w -> bounded every (snd (_do_flush w)).
Proof.
  intros Hpos (Hk & Hlen & Hall).
  destruct (do_flush_shape w) as (Hb & Hc & He & Hf).
  pose proof (Z.mod_pos_bound (_count (self w) - 1) every Hpos) as Hm.
  unfold bounded. rewrite Hb, Hc, He, Hf. repeat split.
  - exact Hk.
  - simpl. lia.
  - apply Forall_app. split; [exact Hall|].
    destruct (_buffer (self w)) as [|r rs]; constructor; [|constructor].
    split; [simpl; lia|lia].
Qed.

Lemma perform_bounded (task : Task) (hostname : pyval) (every : Z) (a : Action)
    (w : World) :
  0 < every -> bounded every w ->
  bounded every (snd (perform task hostname a w)).
Proof.
  intros Hpos Hbd. destruct a as [message|]; cbn [perform];
    [|now apply do_flush_bounded].
  destruct Hbd as (Hk & Hlen & Hall).
  rewrite handler_cases. cbv zeta. rewrite Hk.
  assert (Hnz : (every =? 0) = false) by (apply Z.eqb_neq; lia).
  rewrite Hnz.
  destruct (arrived_facts task hostname message w)
    as (Hb & Hc & _ & _ & Ht & He & _).
  assert (Hfl : flushed (trace (arrived task hostname message w)) =
                flushed (trace w)).
  { rewrite Ht, flushed_app. destruct (_tref (self w)); simpl;
      now rewrite app_nil_r. }
  pose proof (Z.mod_pos_bound (_count (self w) - 1) every Hpos) as Hm.
  pose proof (Z.mod_pos_bound (_count (self w)) every Hpos) as Hm'.
  destruct (_count (self w) mod every =? 0) eqn:Hz.
  - apply Z.eqb_eq in Hz.
    destruct (do_flush_shape (arrived task hostname message w))
      as (Hb' & Hc' & He' & Hf').
    unfold bounded. rewrite Hb', Hc', He', Hf', Hc, He, Hfl, Hb.
    replace (_count (self w) + 1 - 1) with (_count (self w)) by lia.
    repeat split; [exact Hk|simpl; lia|].
    apply Forall_app. split; [exact Hall|].
    destruct (_buffer (self w) ++ [new_request task hostname message w])
      as [|r rs] eqn:Hq; constructor; [|constructor].
    rewrite <- Hq, length_app. simpl. split; lia.
  - apply Z.eqb_neq in Hz. cbn [snd].
    unfold bounded. rewrite Hb, Hc, He, Hfl, length_app.
    replace (_count (self w) + 1 - 1) with (_count (self w)) by lia.
    repeat split; [exact Hk| |exact Hall].
    rewrite <- (mod_pred_succ (_count (self w)) every Hpos Hz). simpl. lia.
Qed.

Lemma run_bounded (task : Task) (hostname : pyval) (every : Z)
    (acts : list Action) (w : World) :
  0 < every -> bounded every w ->
  bounded every (run task hostname acts w).
Proof.
  intros Hpos. revert w.
  induction acts as [|a acts IH]; intros w Hbd; simpl; auto.
  apply IH. now apply perform_bounded.
Qed.

(** X2. With a positive [flush_every], in every reachable state the buffer
    holds fewer than [flush_every] requests, and every batch that was handed
    to [flush] holds at least one and at most [flush_every] requests. *)
Theorem batches_are_bounded (task : Task) (consumer : Consumer) (every : Z)
    (secs : Q) (uuids : nat -> string) (node : string) (w : World) :
  0 < every ->
  reachable task consumer every secs uuids node w ->
  Z.of_nat (List.length (_buffer (self w))) < every /\
  forall batch, In batch (flushed (trace w)) ->
    (1 <= List.length batch)%nat /\ Z.of_nat (List.length batch) <= every.
Proof.
  intros Hpos [acts ->].
  assert (Hbd : bounded every
                  (run task (hostname consumer) acts
                     (started task consumer every secs uuids node))).
  { apply run_bounded; [exact Hpos|].
    unfold bounded. cbn. repeat split; [lia|constructor]. }
  destruct Hbd as (_ & Hlen & Hall).
  split.
  - pose proof (Z.mod_pos_bound
                  (_count (self (run task (hostname consumer) acts
                     (started task consumer every secs uuids node))) - 1)
                  every Hpos). lia.
  - intros batch Hin. rewrite Forall_forall in Hall. now apply Hall.
Qed.

Lemma batches_are_bounded_witness :
  Z.of_nat
    (List.length
       (_buffer (self (run add_task (hostname worker)
                         [Ingress (delay 1); Ingress (delay 2);
                          Ingress (delay 3)] worker_start)))) < 2.
Proof.
  apply (batches_are_bounded add_task worker 2 1 (fun _ => "00000000")
           "localhost").
  - lia.
  - exists [Ingress (delay 1); Ingress (delay 2); Ingress (delay 3)].
    reflexivity.
Defined.

(* ===================================================================== *)
(** ** Submissions and acknowledgments along a run *)

Lemma do_flush_events_accounted (w : World) (s : Submission) :
  In s (registered (do_flush_events w)) ->
  exists batch snaps,
    In batch (flushed (do_flush_events w)) /\
    list_comp SimpleRequest.from_request batch = Ok snaps /\
    s = submission_of batch snaps.
Proof.
  intros Hs. rewrite do_flush_flushed.
  unfold do_flush_events in Hs.
  destruct (_buffer (self w)) as [|r rs] eqn:Hb.
  - destruct (_tref (self w)); destruct Hs.
  - change (In s (registered (snd (flush_outcome (r :: rs) w)))) in Hs.
    apply flush_outcome_registered in Hs as (_ & snaps & Hl & ->).
    exists (r :: rs), snaps. repeat split; [now left|exact Hl].
Qed.

Lemma perform_events_accounted (task : Task) (hostname : pyval) (a : Action)
    (w : World) (s : Submission) :
  In s (registered (emitted (perform task hostname a) w)) ->
  exists batch snaps,
    In batch (flushed (emitted (perform task hostname a) w)) /\
    list_comp SimpleRequest.from_request batch = Ok snaps /\
    s = submission_of batch snaps.
Proof.
  destruct a as [message|]; cbn [perform].
  - rewrite emitted_handler, registered_app, flushed_app.
    destruct (arm_events_quiet w) as (_ & Hf & Hr). rewrite Hf, Hr. cbn [app].
    destruct (flush_every (self w) =? 0); [intros []|].
    destruct (_count (self w) mod flush_every (self w) =? 0); [|intros []].
    apply do_flush_events_accounted.
  - rewrite emitted_do_flush. apply do_flush_events_accounted.
Qed.

Lemma perform_accounted (task : Task) (hostname : pyval) (a : Action)
    (w : World) :
  accounted w -> accounted (snd (perform task hostname a w)).
Proof.
  intros Hacc s. rewrite perform_trace, registered_app, flushed_app.
  intros Hs. apply in_app_or in Hs as [Hs|Hs].
  - destruct (Hacc s Hs) as (batch & snaps & Hb & Hl & ->).
    exists batch, snaps. repeat split; auto. apply in_or_app. now left.
  - destruct (perform_events_accounted task hostname a w s Hs)
      as (batch & snaps & Hb & Hl & ->).
    exists batch, snaps. repeat split; auto. apply in_or_app. now right.
Qed.

Lemma run_accounted (task : Task) (hostname : pyval) (acts : list Action)
    (w : World) :
  accounted w -> accounted (run task hostname acts w).
Proof.
  revert w. induction acts as [|a acts IH]; intros w Hacc; simpl; auto.
  apply IH. now apply perform_accounted.
Qed.

Lemma NoDup_app_disjoint {A} (l1 l2 : list A) (a : A) :
  NoDup (l1 ++ l2) -> In a l1 -> ~ In a l2.
Proof.
  induction l1 as [|x l1 IH]; simpl; intros Hnd Hin; [destruct Hin|].
  inversion Hnd as [|? ? Hx Hrest]; subst.
  destruct Hin as [->|Hin]; [|now apply IH].
  intros Ha. apply Hx. apply in_or_app. now right.
Qed.

Lemma submission_acknowledges_batch (batch : list Request.t)
    (snaps : list SimpleRequest.t) :
  Permutation (acknowledgments (submission_of batch snaps)) batch.
Proof.
  unfold acknowledgments, submission_of.
  cbn [accept_callback callback fire].
  replace (fire (if nonempty (deferred batch)
                 then on_return (deferred batch) else noop))
    with (deferred batch) by (destruct (deferred batch); reflexivity).
  apply partition_permutation.
Qed.

(** X5. In every reachable state, each submission that was handed to the
    pool belongs to a batch that was flushed, its snapshots are those of that
    batch, and its two callbacks together acknowledge exactly the requests of
    that batch.  So a callback never acknowledges a request that is still in
    the buffer, nor one that was never flushed. *)
Theorem callbacks_acknowledge_flushed_requests (task : Task)
    (consumer : Consumer) (every : Z) (secs : Q) (uuids : nat -> string)
    (node : string) (w : World) (s : Submission) :
  reachable task consumer every secs uuids node w ->
  In s (registered (trace w)) ->
  (exists batch,
     In batch (flushed (trace w)) /\
     list_comp SimpleRequest.from_request batch =
       Ok (serializable_requests s) /\
     Permutation (acknowledgments s) batch) /\
  (forall r, In r (acknowledgments s) ->
     In r (dispatched w) /\
     ~ In (Request.oid r) (map Request.oid (_buffer (self w)))).
Proof.
  intros [acts ->] Hs.
  set (w := run task (hostname consumer) acts
              (started task consumer every secs uuids node)) in *.
  assert (Hacc : accounted w).
  { apply run_accounted. intros s' Hs'. destruct Hs'. }
  destruct (Hacc s Hs) as (batch & snaps & Hb & Hl & ->).
  pose proof (submission_acknowledges_batch batch snaps) as Hperm.
  split.
  - exists batch. repeat split; assumption.
  - intros r Hr.
    assert (Hin : In r (dispatched w)).
    { unfold dispatched. apply in_concat. exists batch. split; [exact Hb|].
      now apply (Permutation_in _ Hperm). }
    split; [exact Hin|].
    assert (Hnd : NoDup (map Request.oid (dispatched w ++ _buffer (self w)))).
    { assert (Heq : dispatched w ++ _buffer (self w) =
                    created task (hostname consumer) acts
                      (started task consumer every secs uuids node))
        by (unfold w; rewrite run_dispatched; reflexivity).
      rewrite Heq, created_oids. apply seq_NoDup. }
    rewrite map_app in Hnd.
    apply (NoDup_app_disjoint _ _ _ Hnd). now apply in_map.
Qed.

Lemma callbacks_acknowledge_flushed_requests_witness :
  exists s,
    In s (registered
            (trace (run add_task (hostname worker)
                      [Ingress (delay 1); Ingress (delay 2)] worker_start))) /\
    exists batch,
      In batch (flushed
                  (trace (run add_task (hostname worker)
                            [Ingress (delay 1); Ingress (delay 2)]
                            worker_start))) /\
      Permutation (acknowledgments s) batch.
Proof.
  eexists. split.
  - vm_compute. left. reflexivity.
  - destruct (callbacks_acknowledge_flushed_requests add_task worker 2 1
                (fun _ => "00000000") "localhost"
                (run add_task (hostname worker)
                   [Ingress (delay 1); Ingress (delay 2)] worker_start)
                _
                (ex_intro _ [Ingress (delay 1); Ingress (delay 2)] eq_refl)
                (or_introl eq_refl))
      as [(batch & Hb & _ & Hp) _].
    exists batch. split; assumption.
Defined.

(* ===================================================================== *)
(** ** Outcomes of [flush] *)

Lemma list_comp_pointwise {A B} (f : A -> result B) (xs : list A)
    (ys : list B) :
  list_comp f xs = Ok ys -> Forall2 (fun x y => f x = Ok y) xs ys.
Proof.
  revert ys. induction xs as [|x xs IH]; simpl; intros ys Hl.
  - injection Hl as <-. constructor.
  - destruct (f x) as [y|e] eqn:Hx; simpl in Hl; [|discriminate].
    destruct (list_comp f xs) as [ys'|e]; simpl in Hl; [|discriminate].
    injection Hl as <-. constructor; auto.
Qed.

(** X6. [flush] returns the pool's handle exactly when the batch is
    non-empty, every snapshot can be taken, a pool is set and the pool takes
    the submission; the handle is then the one for the submission made of the
    snapshots and the two callbacks. *)
Theorem flush_returns_iff (requests : list Request.t) (w : World)
    (h : AsyncResult) :
  fst (flush requests w) = Ok h <->
  requests <> [] /\
  exists snaps p,
    list_comp SimpleRequest.from_request requests = Ok snaps /\
    _pool (self w) = Some p /\
    accepts p (submission_of requests snaps) = true /\
    h = {| submitted := submission_of requests snaps |}.
Proof.
  rewrite flush_cases. cbn [fst]. unfold flush_outcome. split.
  - destruct requests as [|r rs]; [discriminate|].
    destruct (list_comp SimpleRequest.from_request (r :: rs)) as [snaps|e];
      [|discriminate].
    destruct (_pool (self w)) as [p|]; [|discriminate].
    cbn [fst].
    destruct (accepts p (submission_of (r :: rs) snaps)) eqn:Hacc;
      [|discriminate].
    intros [= <-]. split; [discriminate|]. exists snaps, p. auto.
  - intros (Hne & snaps & p & Hl & Hp & Hacc & ->).
    destruct requests as [|r rs]; [congruence|].
    rewrite Hl, Hp. cbn [fst]. now rewrite Hacc.
Qed.

Lemma flush_returns_iff_witness :
  exists h, fst (flush mixed_batch worker_start) = Ok h.
Proof.
  eexists.
  apply (proj2 (flush_returns_iff mixed_batch worker_start _)).
  split; [discriminate|].
  eexists. exists open_pool. repeat split.
Defined.

(** X7. Whatever its outcome, [flush] leaves the instance as it found it
    (buffer, counter, timer handle, pool) and the timer service untouched, and
    it calls [apply_async] at most once; on an empty batch it raises
    [AssertionError] without calling the pool. *)
Theorem flush_only_talks_to_the_pool (requests : list Request.t) (w : World) :
  self (snd (flush requests w)) = self w /\
  timer_entries (snd (flush requests w)) = timer_entries w /\
  (List.length (registered (emitted (flush requests) w)) <= 1)%nat /\
  (requests = [] ->
   fst (flush requests w) = Raise AssertionError /\
   registered (emitted (flush requests) w) = []).
Proof.
  rewrite emitted_flush, flush_cases. cbn [fst snd]. repeat split.
  - unfold flush_outcome.
    destruct requests as [|r rs]; [simpl; lia|].
    destruct (list_comp SimpleRequest.from_request (r :: rs));
      [|simpl; lia].
    destruct (_pool (self w)); simpl; lia.
  - now subst.
  - now subst.
Qed.

Lemma flush_only_talks_to_the_pool_witness :
  fst (flush [] worker_start) = Raise AssertionError /\
  registered (emitted (flush []) worker_start) = [].
Proof.
  apply (flush_only_talks_to_the_pool [] worker_start). reflexivity.
Defined.

(** X8. The snapshots handed to the pool follow the batch: there is one per
    request, in batch order, each the snapshot of the request at the same
    position, whatever the partition the request falls in. *)
Theorem snapshots_follow_the_batch (requests : list Request.t) (w : World)
    (s : Submission) :
  In s (registered (emitted (flush requests) w)) ->
  Forall2 (fun r snap => SimpleRequest.from_request r = Ok snap)
          requests (serializable_requests s) /\
  List.length (serializable_requests s) = List.length requests.
Proof.
  intros Hs. rewrite emitted_flush in Hs. simpl in Hs.
  apply flush_outcome_registered in Hs as (_ & snaps & Hl & ->).
  apply list_comp_pointwise in Hl. split; [exact Hl|].
  symmetry. apply (Forall2_length Hl).
Qed.

Lemma snapshots_follow_the_batch_witness :
  exists s,
    In s (registered (emitted (flush mixed_batch) worker_start)) /\
    List.length (serializable_requests s) = List.length mixed_batch.
Proof.
  eexists. split.
  - vm_compute. left. reflexivity.
  - apply (snapshots_follow_the_batch mixed_batch worker_start).
    vm_compute. left. reflexivity.
Defined.

(* ===================================================================== *)
(** ** Snapshots *)

(** X9. A snapshot holds nothing but what the request holds: when
    [from_request] returns, each of [id], [name], [delivery_info],
    [hostname], [reply_to] and [correlation_id] is the request's attribute,
    [args] and [kwargs] are the first two items of the request's payload, and
    [ignore_result] is the request's attribute, or [False] when the request
    has none. *)
Theorem from_request_inversion (request : Request.t)
    (snap : SimpleRequest.t) :
  SimpleRequest.from_request request = Ok snap ->
  Request.id request = Some (SimpleRequest.id snap) /\
  Request.name request = Some (SimpleRequest.name snap) /\
  Request.delivery_info request = Some (SimpleRequest.delivery_info snap) /\
  Request.hostname request = Some (SimpleRequest.hostname snap) /\
  Request.reply_to request = Some (SimpleRequest.reply_to snap) /\
  Request.correlation_id request = Some (SimpleRequest.correlation_id snap) /\
  (exists payload embed,
     Request._payload request = Some payload /\
     py_iter payload =
       Some [SimpleRequest.args snap; SimpleRequest.kwargs snap; embed]) /\
  SimpleRequest.ignore_result snap =
    match Request.ignore_result request with
    | Some v => v
    | None => PyBool false
    end.
Proof.
  unfold SimpleRequest.from_request.
  destruct request as [o t p i n d h ig rt c]. cbn.
  destruct p as [p|]; cbn; [|discriminate].
  unfold unpack3.
  destruct (py_iter p) as [[|a [|b [|c' [|? ?]]]]|] eqn:Hit; cbn;
    try discriminate.
  destruct i, n, d, h, rt, c; cbn; try discriminate.
  intros [= <-]. cbn. repeat split. exists p, c'. split; [reflexivity|exact Hit].
Qed.

Lemma from_request_inversion_witness :
  exists snap,
    SimpleRequest.from_request
      (Request.mk 3 add_task
         (Some (PyList [PyTuple [PyInt 4]; PyDict []; PyNone]))
         (Some (PyInt 9)) (Some (PyStr "add")) (Some PyNone) (Some PyNone)
         None (Some PyNone) (Some PyNone)) = Ok snap /\
    SimpleRequest.ignore_result snap = PyBool false.
Proof.
  eexists. split; [reflexivity|].
  apply (from_request_inversion
           (Request.mk 3 add_task
              (Some (PyList [PyTuple [PyInt 4]; PyDict []; PyNone]))
              (Some (PyInt 9)) (Some (PyStr "add")) (Some PyNone) (Some PyNone)
              None (Some PyNone) (Some PyNone))).
  reflexivity.
Defined.

(** X10. [from_request] can take the snapshot exactly when none of the
    attributes it reads without default is missing and the payload iterates
    to exactly three items; a missing [ignore_result] never prevents it. *)
Theorem snapshotable_iff (request : Request.t) :
  snapshotable request <->
  missing_required request = false /\
  exists payload args kwargs embed,
    Request._payload request = Some payload /\
    py_iter payload = Some [args; kwargs; embed].
Proof.
  unfold snapshotable, missing_required, SimpleRequest.from_request.
  destruct request as [o t p i n d h ig rt c]. cbn. split.
  - intros [snap Hs]. destruct p as [p|]; cbn in Hs; [|discriminate].
    unfold unpack3 in Hs.
    destruct (py_iter p) as [[|a [|b [|c' [|? ?]]]]|] eqn:Hit; cbn in Hs;
      try discriminate.
    destruct i, n, d, h, rt, c; cbn in Hs; try discriminate.
    split; [reflexivity|]. exists p, a, b, c'. auto.
  - intros (Hmiss & payload & a & b & c' & [= ->] & Hit).
    cbn. unfold unpack3. rewrite Hit. cbn.
    destruct i, n, d, h, rt, c; cbn in *; try discriminate.
    eexists. reflexivity.
Qed.

Lemma snapshotable_iff_witness :
  snapshotable (request_of 0 add_task 1) /\
  ~ snapshotable (request_without_id 1 add_task 2).
Proof.
  split.
  - apply (proj2 (snapshotable_iff (request_of 0 add_task 1))).
    split; [reflexivity|]. repeat eexists.
  - intros Hs.
    apply (proj1 (snapshotable_iff (request_without_id 1 add_task 2))) in Hs.
    destruct Hs as [Hm _]. discriminate.
Defined.

(** X11. The payload is examined before anything else: without [_payload]
    the error is the AttributeError on [_payload]; a payload that cannot be
    iterated gives TypeError and one that does not have exactly three items
    gives ValueError, whatever the other attributes are. *)
Theorem from_request_checks_payload_first (request : Request.t) :
  (Request._payload request = None ->
   SimpleRequest.from_request request = Raise (AttributeError "_payload")) /\
  (forall payload,
     Request._payload request = Some payload ->
     py_iter payload = None ->
     SimpleRequest.from_request request = Raise TypeError) /\
  (forall payload items,
     Request._payload request = Some payload ->
     py_iter payload = Some items ->
     List.length items <> 3%nat ->
     SimpleRequest.from_request request = Raise ValueError).
Proof.
  unfold SimpleRequest.from_request. repeat split.
  - intros ->. reflexivity.
  - intros payload -> Hit. cbn. unfold unpack3. now rewrite Hit.
  - intros payload items -> Hit Hlen. cbn. unfold unpack3. rewrite Hit.
    destruct items as [|a [|b [|c [|? ?]]]]; cbn in *; try reflexivity.
    congruence.
Qed.

Lemma from_request_checks_payload_first_witness :
  SimpleRequest.from_request
    (Request.mk 0 add_task (Some (PyTuple [PyInt 1; PyInt 2]))
       None None None None None None None) = Raise ValueError.
Proof.
  apply (proj2 (proj2 (from_request_checks_payload_first
           (Request.mk 0 add_task (Some (PyTuple [PyInt 1; PyInt 2]))
              None None None None None None None)))
           (PyTuple [PyInt 1; PyInt 2]) [PyInt 1; PyInt 2]).
  - reflexivity.
  - reflexivity.
  - discriminate.
Defined.

(* ===================================================================== *)
(** ** Outcomes of a flush attempt *)

(** X12. A flush attempt on a non-empty buffer ends as [flush] on the
    buffered requests ends: it returns when [flush] returns and raises the
    exception [flush] raises.  Either way the buffer is empty afterwards (the
    requests of a failed flush are not put back) and the timer handle and the
    counter are as before. *)
Theorem flush_attempt_propagates (w : World) :
  _buffer (self w) <> [] ->
  fst (_do_flush w) =
    match fst (flush (_buffer (self w)) w) with
    | Ok _ => Ok tt
    | Raise e => Raise e
    end /\
  _buffer (self (snd (_do_flush w))) = [] /\
  _tref (self (snd (_do_flush w))) = _tref (self w) /\
  _count (self (snd (_do_flush w))) = _count (self w) /\
  timer_entries (snd (_do_flush w)) = timer_entries w.
Proof.
  intros Hb. rewrite do_flush_busy by assumption. rewrite flush_cases.
  repeat split.
Qed.

Lemma flush_attempt_propagates_witness :
  exists e,
    fst (_do_flush
           (with_self worker_start
              (set_buffer (self worker_start)
                 [request_without_id 0 add_task 1]))) = Raise e /\
    _buffer (self (snd (_do_flush
           (with_self worker_start
              (set_buffer (self worker_start)
                 [request_without_id 0 add_task 1]))))) = [].
Proof.
  destruct (flush_attempt_propagates
              (with_self worker_start
                 (set_buffer (self worker_start)
                    [request_without_id 0 add_task 1])))
    as (Hres & Hbuf & _); [discriminate|].
  eexists. split; [rewrite Hres; reflexivity|exact Hbuf].
Defined.

(** X13. Two flush attempts in a row leave the scheduler idle, whatever the
    first one found: the second one hands nothing to [flush], and after it
    the buffer is empty and the timer handle is [None]; in a reachable state
    the timer service is then left without entry. *)
Theorem two_flush_attempts_idle (task : Task) (consumer : Consumer)
    (every : Z) (secs : Q) (uuids : nat -> string) (node : string)
    (w : World) :
  reachable task consumer every secs uuids node w ->
  let w1 := snd (_do_flush w) in
  let w2 := snd (_do_flush w1) in
  fst (_do_flush w1) = Ok tt /\
  flushed (emitted _do_flush w1) = [] /\
  _buffer (self w2) = [] /\
  _tref (self w2) = None /\
  timer_entries w2 = [].
Proof.
  intros Hreach w1 w2.
  assert (Hinv1 : scheduler_inv task every w1)
    by (apply do_flush_inv;
        apply (reachable_inv task consumer every secs uuids node w Hreach)).
  assert (Hb1 : _buffer (self w1) = []) by apply do_flush_drains.
  destruct Hinv1 as (Hent & _).
  pose proof (do_flush_idle w1 Hb1) as Hidle.
  rewrite emitted_do_flush, do_flush_flushed, Hb1.
  unfold w2. rewrite Hidle. cbn. repeat split.
  - exact Hb1.
  - rewrite Hent. destruct (_tref (self w1)); [apply remove_single|reflexivity].
Qed.

Lemma two_flush_attempts_idle_witness :
  _tref (self (snd (_do_flush (snd (_do_flush
     (run add_task (hostname worker) [Ingress (delay 1)] worker_start))))))
  = None.
Proof.
  apply (two_flush_attempts_idle add_task worker 2 1 (fun _ => "00000000")
           "localhost"
           (run add_task (hostname worker) [Ingress (delay 1)] worker_start)).
  exists [Ingress (delay 1)]. reflexivity.
Defined.

(* ===================================================================== *)
(** ** Unusual values of [flush_every] *)

(** X14. With [flush_every = 0] every ingress call raises ZeroDivisionError,
    but only after the request is in the buffer and the timer is armed: no
    count flush ever happens, and the next flush attempt hands the buffer,
    the new request included, to [flush]. *)
Theorem zero_flush_every_raises_after_insert (task : Task) (hostname : pyval)
    (message : Message) (w : World) :
  flush_every (self w) = 0 ->
  let call := task_message_handler task hostname message in
  fst (call w) = Raise ZeroDivisionError /\
  _buffer (self (snd (call w))) =
    _buffer (self w) ++ [new_request task hostname message w] /\
  armed (snd (call w)) /\
  flushed (emitted call w) = [] /\
  flushed (emitted _do_flush (snd (call w))) =
    [_buffer (self w) ++ [new_request task hostname message w]].
Proof.
  intros Hz. cbv zeta.
  rewrite emitted_handler, handler_cases. cbv zeta. rewrite Hz.
  cbn [Z.eqb fst snd].
  destruct (arrived_facts task hostname message w) as (Hb & _ & Ht & _).
  destruct (arm_events_quiet w) as (_ & Hq & _).
  rewrite emitted_do_flush, do_flush_flushed, Hb, app_nil_r, Hq.
  repeat split.
  - unfold armed. now rewrite Ht.
  - now destruct (_buffer (self w)).
Qed.

Lemma zero_flush_every_raises_after_insert_witness :
  fst (task_message_handler add_task (hostname worker) (delay 1)
         (started add_task worker 0 1 (fun _ => "00000000") "localhost")) =
  Raise ZeroDivisionError.
Proof.
  apply (zero_flush_every_raises_after_insert add_task (hostname worker)
           (delay 1)
           (started add_task worker 0 1 (fun _ => "00000000") "localhost")).
  reflexivity.
Defined.

(** X15. The count trigger only looks at divisibility, so for a non-zero
    [flush_every] of either sign the [n]-th ingress call hands the buffer to
    [flush] exactly when the absolute value of [flush_every] divides [n]. *)
Theorem count_trigger_ignores_sign (task : Task) (consumer : Consumer)
    (every : Z) (secs : Q) (uuids : nat -> string) (node : string)
    (acts : list Action) (message : Message) :
  every <> 0 ->
  let w := run task (hostname consumer) acts
               (started task consumer every secs uuids node) in
  let n := Z.of_nat (S (ingress_calls acts)) in
  let call := task_message_handler task (hostname consumer) message in
  flushed (emitted call w) =
    if n mod Z.abs every =? 0
    then [_buffer (self w) ++
          [new_request task (hostname consumer) message w]]
    else [].
Proof.
  intros Hnz w n call.
  assert (Hinv : scheduler_inv task every w)
    by apply run_inv, started_inv.
  destruct Hinv as (_ & _ & _ & Hevery).
  assert (Hcount : _count (self w) = n).
  { unfold w, n. rewrite run_count. cbn [started Strategy]. simpl _count. lia. }
  assert (Hnzb : (every =? 0) = false) by now apply Z.eqb_neq.
  assert (Hsame : (n mod Z.abs every =? 0) = (n mod every =? 0)).
  { destruct (n mod every =? 0) eqn:Hm.
    - apply Z.eqb_eq in Hm. apply Z.eqb_eq.
      apply Z.mod_divide in Hm; [|exact Hnz].
      apply Z.mod_divide; [lia|].
      now apply (proj2 (Z.divide_abs_l every n)).
    - apply Z.eqb_neq in Hm. apply Z.eqb_neq. intros Ha. apply Hm.
      apply Z.mod_divide in Ha; [|lia].
      apply Z.mod_divide; [exact Hnz|].
      now apply (proj1 (Z.divide_abs_l every n)). }
  destruct (arm_events_quiet w) as (_ & Hq & _).
  unfold call. rewrite emitted_handler, flushed_app, Hq, Hevery, Hcount, Hnzb,
    Hsame.
  destruct (n mod every =? 0); [|reflexivity].
  cbn [app]. rewrite do_flush_flushed.
  destruct (arrived_facts task (hostname consumer) message w) as (Hb & _).
  rewrite Hb. now destruct (_buffer (self w)).
Qed.

Lemma count_trigger_ignores_sign_witness :
  flushed
    (emitted (task_message_handler add_task (hostname worker) (delay 2))
       (run add_task (hostname worker) [Ingress (delay 1)]
          (started add_task worker (-2) 1 (fun _ => "00000000") "localhost")))
  <> [].
Proof.
  rewrite (count_trigger_ignores_sign add_task worker (-2) 1
             (fun _ => "00000000") "localhost" [Ingress (delay 1)] (delay 2));
    [|discriminate].
  vm_compute. discriminate.
Defined.

(* ===================================================================== *)
(** ** Properties of the test helpers *)

(** X16. [Results] is a stack: [get] right after [set res] returns [res]
    and leaves the list as it was before the [set]; [get] on the empty list
    fails (IndexError). *)
Theorem results_get_after_set (_results : Results.t) (res : pyval) :
  Results.get (Results.set _results res) = Some (res, _results) /\
  Results.get [] = None.
Proof.
  unfold Results.get, Results.set. rewrite rev_app_distr. simpl.
  now rewrite rev_involutive.
Qed.

Lemma signal_counter_fold (self : SignalCounter.t)
    (senders : list SignalCounter.sender) :
  let final := fold_left SignalCounter.__call__ senders self in
  SignalCounter.calls final =
    (SignalCounter.calls self +
     List.length (filter (fun s => negb (SignalCounter.is_ping s)) senders))%nat /\
  SignalCounter.expected_calls final = SignalCounter.expected_calls self /\
  SignalCounter.has_callback final = SignalCounter.has_callback self /\
  SignalCounter.forwarded final =
    SignalCounter.forwarded self ++
    (if SignalCounter.has_callback self
     then filter (fun s => negb (SignalCounter.is_ping s)) senders
     else []).
Proof.
  revert self. induction senders as [|s senders IH]; intros self; cbn zeta.
  - simpl. rewrite Nat.add_0_r.
    destruct (SignalCounter.has_callback self); now rewrite app_nil_r.
  - simpl fold_left. destruct (IH (SignalCounter.__call__ self s))
      as (Hc & He & Hh & Hf).
    rewrite Hc, He, Hh, Hf. clear IH Hc He Hh Hf.
    unfold SignalCounter.__call__, SignalCounter.is_ping. simpl filter.
    destruct (String.eqb (SignalCounter.sender_name s) "celery.ping");
      cbn [negb SignalCounter.calls SignalCounter.expected_calls
           SignalCounter.has_callback SignalCounter.forwarded List.length].
    + repeat split.
    + repeat split; [lia|].
      destruct (SignalCounter.has_callback self);
        now rewrite <- ?app_assoc.
Qed.

(** X17. A [SignalCounter] counts the signals whose sender is not
    [celery.ping]: after a sequence of deliveries its count is the number of
    non-ping senders, its callback was called with exactly those senders, in
    order, and [assert_calls] holds iff that number is the expected one. *)
Theorem signal_counter_ignores_pings (expected : nat) (has_callback : bool)
    (senders : list SignalCounter.sender) :
  let final :=
    fold_left SignalCounter.__call__ senders
      (SignalCounter.__init__ 0 expected has_callback []) in
  let counted := filter (fun s => negb (SignalCounter.is_ping s)) senders in
  SignalCounter.calls final = List.length counted /\
  SignalCounter.forwarded final = (if has_callback then counted else []) /\
  (SignalCounter.assert_calls final = true <-> List.length counted = expected).
Proof.
  cbv zeta.
  destruct (signal_counter_fold
              (SignalCounter.__init__ 0 expected has_callback []) senders)
    as (Hc & He & _ & Hf).
  cbn in Hc, He, Hf. repeat split; auto.
  - unfold SignalCounter.assert_calls. rewrite Hc, He.
    apply Nat.eqb_eq.
  - unfold SignalCounter.assert_calls. rewrite Hc, He.
    apply Nat.eqb_eq.
Qed.

(* ===================================================================== *)
(** ** Outcomes of an ingress call *)

(** X18. With a non-zero [flush_every], an ingress call returns normally
    when no count flush is due; when one is due it ends as [flush] ends on
    the buffer extended with the new request, so an exception of [flush]
    reaches the caller of the handler.  In every case the counter has
    advanced by one and the timer handle is armed. *)
Theorem ingress_ends_as_its_flush (task : Task) (hostname : pyval)
    (message : Message) (w : World) :
  flush_every (self w) <> 0 ->
  let call := task_message_handler task hostname message in
  fst (call w) =
    (if _count (self w) mod flush_every (self w) =? 0
     then match fst (flush (_buffer (self w) ++
                            [new_request task hostname message w]) w) with
          | Ok _ => Ok tt
          | Raise e => Raise e
          end
     else Ok tt) /\
  _count (self (snd (call w))) = _count (self w) + 1 /\
  armed (snd (call w)).
Proof.
  intros Hnz. cbv zeta. split; [|split].
  - rewrite handler_cases. cbv zeta.
    assert (Hnzb : (flush_every (self w) =? 0) = false) by now apply Z.eqb_neq.
    rewrite Hnzb.
    destruct (_count (self w) mod flush_every (self w) =? 0); [|reflexivity].
    destruct (arrived_facts task hostname message w)
      as (Hb & _ & _ & _ & _ & _ & Hp & _).
    rewrite do_flush_busy by (rewrite Hb; now destruct (_buffer (self w))).
    rewrite flush_cases. cbn [fst]. rewrite Hb.
    now rewrite (flush_outcome_self _ w _ Hp).
  - pose proof (perform_count task hostname (Ingress message) w) as Hc.
    cbn [perform ingress_calls] in Hc. rewrite Hc. simpl. lia.
  - apply handler_arms.
Qed.

Lemma ingress_ends_as_its_flush_witness :
  fst (task_message_handler add_task (hostname worker) (delay 1) worker_start)
  = Ok tt.
Proof.
  rewrite (proj1 (ingress_ends_as_its_flush add_task (hostname worker)
                    (delay 1) worker_start ltac:(discriminate))).
  reflexivity.
Defined.
